(** * PageMind: ingestion and retrieval orchestration ([server/index.js])

    A shallow embedding of the chunker, the identity scheme, the store
    upsert with its dedup guard, the purge by URL prefix, the ingestion
    orchestrator and the retrieval orchestrator, together with the
    properties the specification states about them.

    The first part holds the definitions: JavaScript strings and values,
    the [async] functions as trees of awaited calls, their run against
    arbitrary collaborators, the program itself, and a vector store that
    keeps the contract of the specification. The second part holds the
    properties, claim by claim. *)

From Stdlib Require Import ZArith String Ascii Decimal DecimalN.
From stdpp Require Import base numbers option list gmap.

Local Open Scope Z_scope.

(** ** JavaScript strings

    A JavaScript string is a finite sequence of UTF-16 code units;
    [length], [slice], [startsWith] and [trim] all work on code units. *)

Definition code_unit := N.
Abbreviation jsstr := (list code_unit).

(** A string literal of the source (all literals used are ASCII). *)
Definition lit (s : string) : jsstr :=
  map N_of_ascii (list_ascii_of_string s).

(** [text.length] as a JS number. *)
Definition js_length (s : jsstr) : Z := Z.of_nat (length s).

(** [String.prototype.slice(start, end)]: negative positions count from
    the end, both positions are clamped to [0 .. length]. *)
Definition clamp_pos (len p : Z) : Z :=
  if p <? 0 then Z.max (len + p) 0 else Z.min p len.

Definition slice (s : jsstr) (start end_ : Z) : jsstr :=
  let len := js_length s in
  let from := clamp_pos len start in
  let to := clamp_pos len end_ in
  let span := Z.max (to - from) 0 in
  take (Z.to_nat span) (drop (Z.to_nat from) s).

(** [String.prototype.startsWith(prefix)], by code units. *)
Fixpoint startsWith (s p : jsstr) {struct p} : bool :=
  match p, s with
  | [], _ => true
  | _ :: _, [] => false
  | c :: p', d :: s' => if N.eqb c d then startsWith s' p' else false
  end.

(** The code units [String.prototype.trim] strips: WhiteSpace and
    LineTerminator of ECMAScript. *)
Definition is_white (c : code_unit) : bool :=
  match c with
  | 9 | 10 | 11 | 12 | 13 | 32 | 160 | 5760 | 8232 | 8233 | 8239 | 8287
  | 12288 | 65279 => true
  | _ => (8192 <=? c)%N && (c <=? 8202)%N
  end%N.

Fixpoint trimStart (s : jsstr) : jsstr :=
  match s with
  | c :: s' => if is_white c then trimStart s' else s
  | [] => []
  end.

Definition trimEnd (s : jsstr) : jsstr := rev (trimStart (rev s)).

Definition trim (s : jsstr) : jsstr := trimEnd (trimStart s).

(** [Array.prototype.join(sep)] on an array of strings. *)
Fixpoint join (sep : jsstr) (l : list jsstr) : jsstr :=
  match l with
  | [] => []
  | [s] => s
  | s :: l' => s ++ sep ++ join sep l'
  end.

(** [Number.MAX_SAFE_INTEGER], 2^53 - 1: up to it every non-negative
    integer is a Number and prints as its decimal digits. *)
Definition MAX_SAFE_INTEGER : N := 9007199254740991.

(** Number-to-string conversion of a non-negative integer, as a template
    literal performs it: its decimal digits. This is what JavaScript
    prints up to [MAX_SAFE_INTEGER], array indices included; above it a
    Number is rounded to a double and, from 10^21 on, printed with an
    exponent, which is not modelled here: what is stated of the printed
    form carries that bound. *)
Fixpoint uint_units (d : Decimal.uint) : jsstr :=
  match d with
  | Nil => []
  | D0 d' => 48%N :: uint_units d'
  | D1 d' => 49%N :: uint_units d'
  | D2 d' => 50%N :: uint_units d'
  | D3 d' => 51%N :: uint_units d'
  | D4 d' => 52%N :: uint_units d'
  | D5 d' => 53%N :: uint_units d'
  | D6 d' => 54%N :: uint_units d'
  | D7 d' => 55%N :: uint_units d'
  | D8 d' => 56%N :: uint_units d'
  | D9 d' => 57%N :: uint_units d'
  end.

Definition number_to_string (n : N) : jsstr := uint_units (N.to_uint n).

(** Reading a string of decimal digits back, up to the first code unit
    that is not a digit. *)
Fixpoint units_uint (s : jsstr) : Decimal.uint :=
  match s with
  | [] => Nil
  | c :: s' =>
      match c with
      | 48 => D0 (units_uint s')
      | 49 => D1 (units_uint s')
      | 50 => D2 (units_uint s')
      | 51 => D3 (units_uint s')
      | 52 => D4 (units_uint s')
      | 53 => D5 (units_uint s')
      | 54 => D6 (units_uint s')
      | 55 => D7 (units_uint s')
      | 56 => D8 (units_uint s')
      | 57 => D9 (units_uint s')
      | _ => Nil
      end%N
  end.

(** ** Exceptions and completions *)

Inductive collaborator := Axios | OpenAI | Chroma.

Inductive exn :=
| JsError (message : string)       (* [throw new Error(message)] *)
| TypeError                        (* property access or call on a non-object *)
| Rejected (who : collaborator) (code : N). (* a collaborator's promise rejects *)

(** How a synchronous function ends. [Timeout] is the loop model running
    out of fuel; [splitIntoChunks_total] shows it is never reached. *)
Inductive completion (A : Type) :=
| Normal (a : A)
| Abrupt (e : exn)
| Timeout.
Arguments Normal {A} a.
Arguments Abrupt {A} e.
Arguments Timeout {A}.

(** ** The chunker: [splitIntoChunks] *)

(** [Math.ceil(a / b)] for integers [a >= 0] and [b > 0], as the ceiling
    of the exact quotient ([Math_ceil_div_spec]). The quotient is computed
    in doubles; a string length is below 2^32, and there the rounding of
    the division never crosses an integer, so both ceilings agree. *)
Definition Math_ceil_div (a b : Z) : Z := - ((- a) / b).

(** The [for (let i = 0; i < text.length; i += chunkSize)] loop, pushing
    [text.slice(i, i + chunkSize)] at each turn. *)
Fixpoint chunk_loop (fuel : nat) (text : jsstr) (chunkSize i : Z)
    (chunks : list jsstr) : completion (list jsstr) :=
  if i <? js_length text then
    match fuel with
    | O => Timeout
    | S fuel' =>
        chunk_loop fuel' text chunkSize (i + chunkSize)
          (chunks ++ [slice text i (i + chunkSize)])
    end
  else Normal chunks.

Definition splitIntoChunks (text : jsstr) (numChunks : Z)
    : completion (list jsstr) :=
  if numChunks <=? 0 then
    Abrupt (JsError "Number of chunks must be greater than zero")
  else
    let chunkSize := Math_ceil_div (js_length text) numChunks in
    chunk_loop (length text) text chunkSize 0 [].

(** The [k]-th piece of [text] cut every [size] code units. *)
Definition piece (text : jsstr) (size : Z) (k : nat) : jsstr :=
  take (Z.to_nat size) (drop (k * Z.to_nat size) text).

(** ** Values, records and the collaborators' interface *)

(** The JavaScript values a metadata field can hold. *)
Inductive jsval :=
| JUndefined
| JNull
| JString (s : jsstr)
| JNumber (n : Z).

(** Truthiness ([!!e]). *)
Definition truthy (v : jsval) : bool :=
  match v with
  | JUndefined | JNull => false
  | JString s => negb (bool_decide (s = []))
  | JNumber n => negb (n =? 0)
  end.

(** An embedding is opaque to the orchestrators; its entries are kept as
    the bit patterns of the doubles. *)
Definition embedding := list Z.

(** The metadata object of an Indexed Record. *)
Record meta := Meta {
  m_url : jsval;
  m_body : jsval;
  m_head : jsval;
  m_chunkIndex : jsval
}.

(** An Indexed Record without its id. *)
Record record := Record_ {
  r_embedding : embedding;
  r_meta : meta
}.

(** What [axios.get] followed by [cheerio.load] exposes of a page:
    [$("head").html()], [$("body").html()] (a string or [null]) and the
    [href] attribute of each anchor (a string or [undefined]). *)
Record page := Page {
  p_head : option jsstr;
  p_body : option jsstr;
  p_hrefs : list (option jsstr)
}.

(** The object [scrapeWebpage] returns. *)
Record scrape_result := ScrapeResult {
  metaData : option jsstr;
  body : option jsstr;
  internalLinks : list jsstr;
  externalLinks : list jsstr
}.

(** The result of [collection.get]. *)
Record get_result := GetResult {
  ids : list jsstr;
  metadatas : list meta
}.

Definition WEB_COLLECTION : jsstr := lit "PAGEMIND_COLLECTION_1".

Inductive role := RoleSystem | RoleUser.

(** The calls the program awaits on its collaborators. *)
Inductive request :=
| AxiosGet (url : jsstr)
| EmbeddingsCreate (model : string) (input : jsstr)
| GetOrCreateCollection (name : jsstr)
| CollectionGet (ids : option (list jsstr))
| CollectionAdd (id : jsstr) (e : embedding) (m : meta)
| CollectionDelete (ids : list jsstr)
| CollectionQuery (nResults : Z) (queryEmbeddings : embedding)
| ChatCompletionsCreate (model : string) (messages : list (role * jsstr)).

(** What each call resolves to: the page; [embedding.data] as the list of
    its embeddings; the collection handle; the [get] result; nothing for
    [add] and [delete]; [metadatas] (a nested sequence) for [query]; the
    [message.content] of each of [choices] for a completion. *)
Definition response (r : request) : Type :=
  match r with
  | AxiosGet _ => page
  | EmbeddingsCreate _ _ => list embedding
  | GetOrCreateCollection _ => unit
  | CollectionGet _ => get_result
  | CollectionAdd _ _ _ => unit
  | CollectionDelete _ => unit
  | CollectionQuery _ _ => list (list meta)
  | ChatCompletionsCreate _ _ => list jsstr
  end.

(** The lines written to the console. *)
Inductive log_line :=
| LogIngesting (url : jsstr)
| ErrBodyEmpty (url : jsstr)
| LogSplit (n : nat)
| LogIngestingSuccessful (url : jsstr)
| ErrIngesting (url : jsstr) (error : exn)
| LogAlreadyExists (id : jsstr)
| LogAdded (id : jsstr)
| LogDeleted (n : nat) (url : jsstr)
| LogAnswer (message : jsstr) (url : jsval).

(** ** Asynchronous functions

    An [async] function is a tree of awaited calls: it returns, throws,
    writes a console line, or awaits a collaborator's promise and goes on
    from the way it settles (resolved with a value, or rejected with an
    error). [Hang] is an [await] that never comes back, used only for the
    chunker's [Timeout]. *)
Inductive prog (A : Type) : Type :=
| Ret (a : A)
| Throw (e : exn)
| Hang
| Log (l : log_line) (k : prog A)
| Await (r : request) (k : exn + response r -> prog A).
Arguments Ret {A} a.
Arguments Throw {A} e.
Arguments Hang {A}.
Arguments Log {A} l k.
Arguments Await {A} r k.

Fixpoint bind {A B} (p : prog A) (f : A -> prog B) : prog B :=
  match p with
  | Ret a => f a
  | Throw e => Throw e
  | Hang => Hang
  | Log l k => Log l (bind k f)
  | Await r k => Await r (fun x => bind (k x) f)
  end.

(** [try { p } catch (error) { h error }] *)
Fixpoint try_catch {A} (p : prog A) (h : exn -> prog A) : prog A :=
  match p with
  | Ret a => Ret a
  | Throw e => h e
  | Hang => Hang
  | Log l k => Log l (try_catch k h)
  | Await r k => Await r (fun x => try_catch (k x) h)
  end.

Declare Scope prog_scope.
Delimit Scope prog_scope with prog.
Notation "x <- p ;; q" := (bind p (fun x => q))
  (at level 100, p at next level, right associativity) : prog_scope.
Notation "p ;; q" := (bind p (fun _ => q))
  (at level 100, right associativity) : prog_scope.
Local Open Scope prog_scope.

(** [await call(...)]: the value of a resolved promise; a rejected one
    throws its error at the [await]. *)
Definition await (r : request) : prog (response r) :=
  Await r (fun settled =>
             match settled with
             | inr x => Ret x
             | inl e => Throw e
             end).
Definition console (l : log_line) : prog unit := Log l (Ret tt).

(** A synchronous call inside an [async] function. *)
Definition call {A} (c : completion A) : prog A :=
  match c with
  | Normal a => Ret a
  | Abrupt e => Throw e
  | Timeout => Hang
  end.

(** ** Running a program against its collaborators

    A handler answers each call from the state of the outside world: the
    promise resolves ([inr]) or rejects ([inl]), and the world moves on.
    The run records every console line and every call, in order. *)
Definition handler (W : Type) : Type :=
  forall r : request, W -> (exn + response r) * W.

Inductive event :=
| EvLog (l : log_line)
| EvCall (r : request).

Record outcome (A W : Type) := Outcome {
  result : completion A;
  world : W;
  trace : list event
}.
Arguments Outcome {A W} result world trace.
Arguments result {A W} o.
Arguments world {A W} o.
Arguments trace {A W} o.

Definition emit {A W} (ev : event) (o : outcome A W) : outcome A W :=
  Outcome (result o) (world o) (ev :: trace o).

Fixpoint run {A W} (h : handler W) (p : prog A) (w : W) : outcome A W :=
  match p with
  | Ret a => Outcome (Normal a) w []
  | Throw e => Outcome (Abrupt e) w []
  | Hang => Outcome Timeout w []
  | Log l k => emit (EvLog l) (run h k w)
  | Await r k =>
      let '(settled, w') := h r w in
      emit (EvCall r) (run h (k settled) w')
  end.

(** ** The program *)

(** [Set.prototype.add] on a set kept in insertion order. *)
Definition set_add (x : jsstr) (s : list jsstr) : list jsstr :=
  if bool_decide (x ∈ s) then s else s ++ [x].

(** The callback of [$("a").each(...)], run over the anchors in document
    order: [link.startsWith] throws on an anchor without [href]. *)
Fixpoint classify_links (hrefs : list (option jsstr))
    (internal external : list jsstr) : completion (list jsstr * list jsstr) :=
  match hrefs with
  | [] => Normal (internal, external)
  | link :: rest =>
      if bool_decide (link = Some (lit "/")) then
        classify_links rest internal external
      else
        match link with
        | None => Abrupt TypeError
        | Some l =>
            if startsWith l (lit "https") || startsWith l (lit "http") then
              classify_links rest internal (set_add l external)
            else
              classify_links rest (set_add l internal) external
        end
  end.

Definition scrapeWebpage (url : jsstr) : prog scrape_result :=
  data <- await (AxiosGet url);;
  let pageMetadata := p_head data in
  let pageBody := p_body data in
  links <- call (classify_links (p_hrefs data) [] []);;
  Ret {| metaData := pageMetadata;
         body := pageBody;
         internalLinks := fst links;
         externalLinks := snd links |}.

Definition generateVectorEmbeddings (text : jsstr) : prog embedding :=
  data <- await (EmbeddingsCreate "text-embedding-3-small" text);;
  match data with
  | e :: _ => Ret e
  | [] => Throw TypeError            (* [embedding.data[0]] is undefined *)
  end.

(** The Identity Scheme: the template literal
    [`${url}_chunk_${chunkIndex}`]. *)
Definition uniqueId (url : jsstr) (chunkIndex : N) : jsstr :=
  url ++ lit "_chunk_" ++ number_to_string chunkIndex.

(** The object [addToVectorDB] destructures. A property the caller did
    not set reads as [undefined]: [None] for [body], which then takes its
    default [''], and [JUndefined] for [head]. *)
Record vector_entry := VectorEntry {
  e_embedding : embedding;
  e_url : jsstr;
  e_body : option jsstr;
  e_head : jsval;
  e_metaData : jsval
}.

Definition addToVectorDB (entry : vector_entry) (chunkIndex : N) : prog unit :=
  let embedding := e_embedding entry in
  let url := e_url entry in
  let body := default [] (e_body entry) in
  let head := e_head entry in
  collection <- await (GetOrCreateCollection WEB_COLLECTION);;
  let uniqueId := uniqueId url chunkIndex in
  existingEmbedding <- await (CollectionGet (Some [uniqueId]));;
  if 0 <? Z.of_nat (length (ids existingEmbedding)) then
    console (LogAlreadyExists uniqueId);;
    Ret tt
  else
    await (CollectionAdd uniqueId embedding
             {| m_url := JString url;
                m_body := JString body;
                m_head := head;
                m_chunkIndex := JNumber (Z.of_N chunkIndex) |});;
    console (LogAdded uniqueId).

Definition isUrlProcessed (url : jsstr) : prog bool :=
  collection <- await (GetOrCreateCollection WEB_COLLECTION);;
  embeddings <- await (CollectionGet None);;
  Ret (existsb (fun id => startsWith id url) (ids embeddings)).

Definition deleteEmbeddingsForUrl (url : jsstr) : prog unit :=
  collection <- await (GetOrCreateCollection WEB_COLLECTION);;
  embeddings <- await (CollectionGet None);;
  let idsToDelete := List.filter (fun id => startsWith id url) (ids embeddings) in
  if 0 <? Z.of_nat (length idsToDelete) then
    await (CollectionDelete idsToDelete);;
    console (LogDeleted (length idsToDelete) url)
  else Ret tt.

Definition of_nullable (o : option jsstr) : jsval :=
  match o with
  | Some s => JString s
  | None => JNull
  end.

(** The [for (let i = 0; i < bodyChunks.length; i++)] loop of [ingest],
    over the chunks from index [i] on. *)
Fixpoint ingest_chunks (url : jsstr) (metaData : jsval)
    (rest : list jsstr) (i : N) : prog unit :=
  match rest with
  | [] => Ret tt
  | chunk :: rest' =>
      chunkedBodyEmbeddings <- generateVectorEmbeddings chunk;;
      addToVectorDB
        {| e_embedding := chunkedBodyEmbeddings;
           e_url := url;
           e_metaData := metaData;
           e_body := Some chunk;
           e_head := JUndefined |}
        i;;
      ingest_chunks url metaData rest' (i + 1)%N
  end.

(** The [try] block of [ingest] from the [if (!body)] test on, given what
    [scrapeWebpage] returned. *)
Definition index_scraped (url : jsstr) (scraped : scrape_result) : prog unit :=
  match body scraped with
  | None | Some [] =>                                      (* [!body] *)
      console (ErrBodyEmpty url);;
      Ret tt
  | Some body =>
      bodyChunks <- call (splitIntoChunks body 100);;
      console (LogSplit (length bodyChunks));;
      ingest_chunks url (of_nullable (metaData scraped)) bodyChunks 0%N;;
      console (LogIngestingSuccessful url)
  end.

(** The [try] block of [ingest]. *)
Definition ingest_try (url : jsstr) : prog unit :=
  console (LogIngesting url);;
  deleteEmbeddingsForUrl url;;
  scraped <- scrapeWebpage url;;
  index_scraped url scraped.

(** The [catch (error)] block of [ingest]. *)
Definition ingest_catch (url : jsstr) (error : exn) : prog unit :=
  console (ErrIngesting url error).

Definition ingest (url : jsstr) : prog unit :=
  try_catch (ingest_try url) (ingest_catch url).

(** The predicate of both filters of [chat]: [e.trim() !== '' && !!e].
    [e.trim()] is evaluated first and throws unless [e] is a string. *)
Definition trim_nonempty (e : jsval) : completion bool :=
  match e with
  | JString s => Normal (negb (bool_decide (trim s = [])) && truthy e)
  | JUndefined | JNull | JNumber _ => Abrupt TypeError
  end.

(** [Array.prototype.filter] with a predicate that may throw. *)
Fixpoint js_filter {A} (f : A -> completion bool) (l : list A)
    : completion (list A) :=
  match l with
  | [] => Normal []
  | x :: l' =>
      match f x with
      | Normal b =>
          match js_filter f l' with
          | Normal r => Normal (if b then x :: r else r)
          | Abrupt e => Abrupt e
          | Timeout => Timeout
          end
      | Abrupt e => Abrupt e
      | Timeout => Timeout
      end
  end.

(** The conversion [join] applies to each element. *)
Definition ToString (v : jsval) : jsstr :=
  match v with
  | JUndefined | JNull => []
  | JString s => s
  | JNumber n =>
      if n <? 0 then lit "-" ++ number_to_string (Z.to_N (- n))
      else number_to_string (Z.to_N n)
  end.

Definition system_content : jsstr :=
  lit "You are an AI support agent, expert in providing support to users on behalf of a webpage. Given the context about page content, reply the user accordingly.".

Definition newline : jsstr := [10%N].

(** The template literal of the user message, line breaks and
    indentation of the source included. *)
Definition user_content (question : jsstr) (url body : list jsval) : jsstr :=
  lit "Query: " ++ question ++ newline ++ newline ++ newline
  ++ lit "                 URl: " ++ join (lit ", ") (map ToString url)
  ++ newline ++ newline ++ newline
  ++ lit "                 Retrieved conext: "
  ++ join (lit ", ") (map ToString body).

Definition chat (question : jsstr) : prog unit :=
  questionEmbedding <- generateVectorEmbeddings question;;
  collection <- await (GetOrCreateCollection WEB_COLLECTION);;
  collectionResult <- await (CollectionQuery 3 questionEmbedding);;
  match collectionResult with
  | [] => Throw TypeError             (* [metadatas[0]] is undefined *)
  | metadatas0 :: _ =>
      body <- call (js_filter trim_nonempty (map m_body metadatas0));;
      url <- call (js_filter trim_nonempty (map m_url metadatas0));;
      openAIResponse <-
        await (ChatCompletionsCreate "gpt-3.5-turbo"
                 [(RoleSystem, system_content);
                  (RoleUser, user_content question url body)]);;
      match openAIResponse with
      | [] => Throw TypeError         (* [choices[0]] is undefined *)
      | content :: _ =>
          console (LogAnswer content (hd JUndefined url))
      end
  end.

(** ** Sequencing outcomes *)

(** The outcome of [o] followed, when [o] returned, by [k]. *)
Definition and_then {A B W} (o : outcome A W) (k : A -> W -> outcome B W)
    : outcome B W :=
  match result o with
  | Normal a =>
      let o' := k a (world o) in
      Outcome (result o') (world o') (trace o ++ trace o')
  | Abrupt e => Outcome (Abrupt e) (world o) (trace o)
  | Timeout => Outcome Timeout (world o) (trace o)
  end.

(** The outcome of [o] followed, when [o] threw, by the handler [k]. *)
Definition or_else {A W} (o : outcome A W) (k : exn -> W -> outcome A W)
    : outcome A W :=
  match result o with
  | Abrupt e =>
      let o' := k e (world o) in
      Outcome (result o') (world o') (trace o ++ trace o')
  | Normal a => Outcome (Normal a) (world o) (trace o)
  | Timeout => Outcome Timeout (world o) (trace o)
  end.

(** A program with no [Hang] in it. *)
Inductive settles {A} : prog A -> Prop :=
| settles_Ret a : settles (Ret a)
| settles_Throw e : settles (Throw e)
| settles_Log l k : settles k -> settles (Log l k)
| settles_Await r k : (forall x, settles (k x)) -> settles (Await r k).

(** ** The identity scheme and the filters, as predicates *)

Definition is_digit (c : code_unit) : Prop := (48 <= c <= 57)%N.

Definition is_string (v : jsval) : Prop :=
  match v with
  | JString _ => True
  | _ => False
  end.

(** A string that is empty or made of white space only. *)
Definition blank (s : jsstr) : bool := forallb is_white s.

(** A value that is a string with something else than white space. *)
Definition nonblank (v : jsval) : bool :=
  match v with
  | JString s => negb (blank s)
  | _ => false
  end.

(** The url list as the specification words it: the urls of the records
    whose body is retained. *)
Definition urls_of_retained_records (recs : list meta) : list jsval :=
  map m_url (List.filter (fun m => nonblank (m_body m)) recs).

(** The calls of [chat] up to the query. *)
Definition retrieval_calls (question : jsstr) (emb : embedding) : list event :=
  [EvCall (EmbeddingsCreate "text-embedding-3-small" question);
   EvCall (GetOrCreateCollection WEB_COLLECTION);
   EvCall (CollectionQuery 3 emb)].

(** The completion request of [chat]. *)
Definition completion_request (question : jsstr) (url body : list jsval)
    : request :=
  ChatCompletionsCreate "gpt-3.5-turbo"
    [(RoleSystem, system_content); (RoleUser, user_content question url body)].

(** ** A vector store that keeps its contract *)

Inductive duplicate_policy :=
| RejectDuplicate
| OverwriteDuplicate
| KeepDuplicate.

Section Store.

Context {X : Type}.

(** The collaborators other than the store (fetcher, embedding and
    generative services): any behaviour, on a state [X] of their own. *)
Variable others : forall r : request, X -> (exn + response r) * X.

(** What [add] does with an id already present is store-defined. *)
Variable on_duplicate : duplicate_policy.

(** The store's own similarity order: the metadata of the [n] records
    nearest to a query embedding. *)
Variable nearest : Z -> embedding -> gmap jsstr record -> list meta.

Definition store_get (s : gmap jsstr record) (wanted : option (list jsstr))
    : get_result :=
  match wanted with
  | None =>
      GetResult (map fst (map_to_list s)) (map (fun kv => r_meta (snd kv)) (map_to_list s))
  | Some l =>
      let found := List.filter (fun id => bool_decide (is_Some (s !! id))) l in
      GetResult found (omap (fun id => r_meta <$> s !! id) found)
  end.

Definition store_add (s : gmap jsstr record) (id : jsstr) (r : record)
    : exn + gmap jsstr record :=
  match s !! id with
  | None => inr (<[id := r]> s)
  | Some _ =>
      match on_duplicate with
      | RejectDuplicate => inl (Rejected Chroma 409)
      | OverwriteDuplicate => inr (<[id := r]> s)
      | KeepDuplicate => inr s
      end
  end.

Definition store_delete (s : gmap jsstr record) (l : list jsstr)
    : gmap jsstr record :=
  foldr delete s l.

(** Modelled from the spec: the Vector Store collaborator (the chromadb
    client, an external service) as section 6 gives its contract, for the
    one collection the process uses. [get] without ids returns all
    records, with ids the records having one of them; [add] inserts;
    [delete] removes the listed ids; [query] returns one sequence of
    metadata for the one query embedding. *)
Definition chroma : handler (gmap jsstr record * X) :=
  fun r =>
    match r as r0
      return gmap jsstr record * X -> (exn + response r0) * (gmap jsstr record * X)
    with
    | GetOrCreateCollection _ => fun w => (inr tt, w)
    | CollectionGet wanted => fun w => (inr (store_get (fst w) wanted), w)
    | CollectionAdd id e m => fun w =>
        match store_add (fst w) id (Record_ e m) with
        | inr s' => (inr tt, (s', snd w))
        | inl err => (inl err, w)
        end
    | CollectionDelete l => fun w => (inr tt, (store_delete (fst w) l, snd w))
    | CollectionQuery n q => fun w => (inr [nearest n q (fst w)], w)
    | AxiosGet u => fun w =>
        let '(o, x) := others (AxiosGet u) (snd w) in (o, (fst w, x))
    | EmbeddingsCreate m i => fun w =>
        let '(o, x) := others (EmbeddingsCreate m i) (snd w) in (o, (fst w, x))
    | ChatCompletionsCreate m msgs => fun w =>
        let '(o, x) := others (ChatCompletionsCreate m msgs) (snd w) in
        (o, (fst w, x))
    end.

End Store.

(** ** Purge and upsert, in closed form *)

(** The store once the records of [url] are purged. *)
Definition purged (url : jsstr) (s : gmap jsstr record) : gmap jsstr record :=
  let idsToDelete :=
    List.filter (fun id => startsWith id url) (map fst (map_to_list s)) in
  if 0 <? Z.of_nat (length idsToDelete) then store_delete s idsToDelete else s.

(** The calls and console lines of the purge. *)
Definition purge_trace (url : jsstr) (s : gmap jsstr record) : list event :=
  let idsToDelete :=
    List.filter (fun id => startsWith id url) (map fst (map_to_list s)) in
  [EvCall (GetOrCreateCollection WEB_COLLECTION); EvCall (CollectionGet None)]
  ++ (if 0 <? Z.of_nat (length idsToDelete)
      then [EvCall (CollectionDelete idsToDelete);
            EvLog (LogDeleted (length idsToDelete) url)]
      else []).

(** The Indexed Record [addToVectorDB] builds. *)
Definition indexed_record (entry : vector_entry) (chunkIndex : N) : record :=
  {| r_embedding := e_embedding entry;
     r_meta := {| m_url := JString (e_url entry);
                  m_body := JString (default [] (e_body entry));
                  m_head := e_head entry;
                  m_chunkIndex := JNumber (Z.of_N chunkIndex) |} |}.

Definition is_fetch (ev : event) : Prop :=
  match ev with
  | EvCall (AxiosGet _) => True
  | _ => False
  end.

Definition is_write (ev : event) : Prop :=
  match ev with
  | EvCall (CollectionAdd _ _ _) | EvCall (CollectionDelete _) => True
  | _ => False
  end.

(** ** Concrete inputs *)

(** Collaborators that answer every call: the fetch with [fetched], the
    store's query with the records [recs]. *)
Definition scripted (fetched : exn + page) (recs : list meta) : handler unit :=
  fun r =>
    match r as r0 return unit -> (exn + response r0) * unit with
    | AxiosGet _ => fun w => (fetched, w)
    | EmbeddingsCreate _ _ => fun w => (inr [[0]], w)
    | GetOrCreateCollection _ => fun w => (inr tt, w)
    | CollectionGet _ => fun w => (inr (GetResult [] []), w)
    | CollectionAdd _ _ _ => fun w => (inr tt, w)
    | CollectionDelete _ => fun w => (inr tt, w)
    | CollectionQuery _ _ => fun w => (inr [recs], w)
    | ChatCompletionsCreate _ _ => fun w => (inr [lit "ok"], w)
    end.

Definition url_a : jsstr := lit "http://a".
Definition url_b : jsstr := lit "http://b".

Definition entry_a : vector_entry :=
  {| e_embedding := [1; 2];
     e_url := url_a;
     e_body := Some (lit "Hello");
     e_head := JUndefined;
     e_metaData := JNull |}.

Definition record_b : record :=
  {| r_embedding := [3; 4];
     r_meta := Meta (JString url_b) (JString (lit "x")) JUndefined (JNumber 0) |}.

(** A store with one chunk of [url_a] and one chunk of [url_b]. *)
Definition store_ab : gmap jsstr record :=
  <[uniqueId url_a 0 := indexed_record entry_a 0]>
    (<[uniqueId url_b 0 := record_b]> ∅).

Definition first_n (n : Z) (q : embedding) (s : gmap jsstr record) : list meta :=
  take (Z.to_nat n) (map (fun kv => r_meta (snd kv)) (map_to_list s)).

(** The store keeping its contract, beside a fetcher answering [fetched]. *)
Definition db_with (fetched : exn + page) : handler (gmap jsstr record * unit) :=
  chroma (scripted fetched []) RejectDuplicate first_n.

Definition page_hello : page := Page None (Some (lit "Hello")) [].
Definition page_empty : page := Page None (Some []) [].

(** Collaborators that reject every call. *)
Definition rejecting : handler unit :=
  fun r w => (inl (Rejected Chroma 503), w).

(** Two records returned by a query: the first has a body of white space
    only, the second a body with text. *)
Definition recs_blank_first : list meta :=
  [Meta (JString url_a) (JString (lit "  ")) JUndefined (JNumber 0);
   Meta (JString url_b) (JString (lit "x")) JUndefined (JNumber 1)].

(** A query result with a record whose body is [null]. *)
Definition recs_null_body : list meta :=
  [Meta (JString url_a) JNull JUndefined (JNumber 0)].

Definition question_1 : jsstr := lit "List all his projects?".

(** ** The embedding service along a chunk sequence *)

Section Embeddings.

Context {X : Type}.
Variable others : forall r : request, X -> (exn + response r) * X.

(** What the embedding service answers to the successive calls of the
    loop of [ingest], from the state [x] on: the embeddings obtained up to
    the first call that fails, the state it is left in, and the error of
    the failing call if there is one ([TypeError] when [data] is empty). *)
Fixpoint embeddings_of (x : X) (chunks : list jsstr)
    : list embedding * X * option exn :=
  match chunks with
  | [] => ([], x, None)
  | chunk :: rest =>
      match others (EmbeddingsCreate "text-embedding-3-small" chunk) x with
      | (inr (e :: _), x') =>
          let '(es, x'', err) := embeddings_of x' rest in (e :: es, x'', err)
      | (inr [], x') => ([], x', Some TypeError)
      | (inl err, x') => ([], x', Some err)
      end
  end.

End Embeddings.

(** The Indexed Record [ingest] stores for the chunk [chunk] of index [i]
    with embedding [e]: the object it passes has no [head] property. *)
Definition chunk_record (url : jsstr) (chunk : jsstr) (e : embedding) (i : N)
    : record :=
  {| r_embedding := e;
     r_meta := {| m_url := JString url;
                  m_body := JString chunk;
                  m_head := JUndefined;
                  m_chunkIndex := JNumber (Z.of_N i) |} |}.

(** The link test of [scrapeWebpage]. *)
Definition is_external (link : jsstr) : bool :=
  startsWith link (lit "https") || startsWith link (lit "http").

Definition is_add (ev : event) : Prop :=
  match ev with
  | EvCall (CollectionAdd _ _ _) => True
  | _ => False
  end.

(** A fetcher answering [page_hello] beside an embedding service that
    answers as many calls as its state counts and rejects the next ones. *)
Definition flaky : forall r : request, nat -> (exn + response r) * nat :=
  fun r =>
    match r as r0 return nat -> (exn + response r0) * nat with
    | AxiosGet _ => fun n => (inr page_hello, n)
    | EmbeddingsCreate _ _ => fun n =>
        match n with
        | O => (inl (Rejected OpenAI 429), O)
        | S n' => (inr [[7]], n')
        end
    | GetOrCreateCollection _ => fun n => (inr tt, n)
    | CollectionGet _ => fun n => (inr (GetResult [] []), n)
    | CollectionAdd _ _ _ => fun n => (inr tt, n)
    | CollectionDelete _ => fun n => (inr tt, n)
    | CollectionQuery _ _ => fun n => (inr [[]], n)
    | ChatCompletionsCreate _ _ => fun n => (inr [lit "ok"], n)
    end.

(** A page with five anchors, and a page with an anchor without [href]. *)
Definition page_links : page :=
  Page (Some (lit "<title>t</title>")) (Some (lit "Hello"))
    [Some (lit "/"); Some (lit "/about"); Some (lit "https://x.org");
     Some (lit "/about"); Some (lit "http://y.org")].

Definition page_no_href : page :=
  Page None (Some (lit "Hello")) [Some (lit "/about"); None].

(** A url that starts with [url_a], and a store holding one chunk of it
    beside one chunk of [url_b]. *)
Definition url_a_b : jsstr := lit "http://a/b".

Definition store_longer : gmap jsstr record :=
  <[uniqueId url_a_b 3 := record_b]> (<[uniqueId url_b 0 := record_b]> ∅).

(** The chunks of ["Hello"] for a count of 100. *)
Definition chunks_hello : list jsstr :=
  [lit "H"; lit "e"; lit "l"; lit "l"; lit "o"].

(** * Properties *)

(** ** The chunker *)

Section Chunker.

Implicit Types (text : jsstr) (chunks : list jsstr).

(** [Math_ceil_div a b] is the ceiling of the rational [a / b]. *)
Lemma Math_ceil_div_spec (a b : Z) :
  0 < b -> (Math_ceil_div a b - 1) * b < a <= Math_ceil_div a b * b.
Proof.
  intros Hb. unfold Math_ceil_div.
  pose proof (Z.div_mod (- a) b ltac:(lia)) as Hdm.
  pose proof (Z.mod_pos_bound (- a) b Hb) as Hm.
  nia.
Qed.

Lemma Math_ceil_div_pos (a b : Z) : 0 < a -> 0 < b -> 1 <= Math_ceil_div a b.
Proof.
  intros Ha Hb. pose proof (Math_ceil_div_spec a b Hb). nia.
Qed.

Lemma Math_ceil_div_le (a b : Z) : 0 <= a -> 1 <= b -> 0 <= Math_ceil_div a b <= a.
Proof.
  intros Ha Hb. pose proof (Math_ceil_div_spec a b ltac:(lia)). nia.
Qed.

(** Inside the loop [slice] is called at [0 <= i] with a non-negative
    width: it is the plain [take]/[drop]. *)
Lemma slice_take_drop text (i n : Z) :
  0 <= i -> 0 <= n ->
  slice text i (i + n) = take (Z.to_nat n) (drop (Z.to_nat i) text).
Proof.
  intros Hi Hn. unfold slice, clamp_pos, js_length.
  destruct (Z.ltb_spec i 0) as [|_]; [lia|].
  destruct (Z.ltb_spec (i + n) 0) as [|_]; [lia|].
  destruct (Z_le_gt_dec i (Z.of_nat (length text))) as [Hle|Hgt].
  - rewrite (Z.min_l i) by lia.
    destruct (Z_le_gt_dec (i + n) (Z.of_nat (length text))).
    + rewrite Z.min_l by lia. f_equal. lia.
    + rewrite Z.min_r by lia.
      rewrite (take_ge _ (Z.to_nat n)) by (rewrite length_drop; lia).
      apply take_ge. rewrite length_drop. lia.
  - rewrite !drop_ge by lia. by rewrite !take_nil.
Qed.

Lemma piece_length text size k :
  Z.of_nat (length (piece text size k))
  = Z.max 0 (Z.min size (js_length text - Z.of_nat k * Z.max 0 size)).
Proof.
  unfold piece, js_length. rewrite length_take, length_drop. nia.
Qed.

(** The loop entered at offset [j * chunkSize] pushes the pieces
    [j, j+1, ...] up to the last one and stops; [fuel] is enough as soon
    as it covers the pieces left. *)
Lemma chunk_loop_pieces text (size : Z) :
  1 <= size ->
  forall fuel (j : nat) chunks,
    let cnt := Z.to_nat (Math_ceil_div (js_length text) size) in
    (j <= cnt)%nat -> (cnt - j <= fuel)%nat ->
    chunk_loop fuel text size (Z.of_nat j * size) chunks
    = Normal (chunks ++ map (piece text size) (seq j (cnt - j))).
Proof.
  intros Hsize.
  pose proof (Math_ceil_div_spec (js_length text) size ltac:(lia)) as Hceil.
  induction fuel as [|fuel IH]; intros j chunks cnt Hj Hfuel; simpl.
  - assert (j = cnt) as -> by lia.
    destruct (Z.ltb_spec (Z.of_nat cnt * size) (js_length text)) as [Hlt|_].
    + exfalso. subst cnt. unfold js_length in *. nia.
    + by rewrite Nat.sub_diag, app_nil_r.
  - destruct (Z.ltb_spec (Z.of_nat j * size) (js_length text)) as [Hlt|Hge].
    + assert (j < cnt)%nat as Hjlt.
      { subst cnt. unfold js_length in *. nia. }
      replace (Z.of_nat j * size + size) with (Z.of_nat (S j) * size) by lia.
      rewrite IH by lia.
      replace (cnt - j)%nat with (S (cnt - S j)) by lia.
      simpl. rewrite <- app_assoc. simpl. do 3 f_equal.
      replace (Z.of_nat (S j) * size) with (Z.of_nat j * size + size) by lia.
      rewrite slice_take_drop by lia. unfold piece. do 2 f_equal. lia.
    + assert (j = cnt) as ->.
      { subst cnt. unfold js_length in *. nia. }
      by rewrite Nat.sub_diag, app_nil_r.
Qed.

(** Cutting [text] into pieces and gluing them back. *)
Lemma concat_pieces text (size : nat) :
  (1 <= size)%nat ->
  forall n (j : nat),
    (length text <= (j + n) * size)%nat ->
    concat (map (piece text (Z.of_nat size)) (seq j n)) = drop (j * size) text.
Proof.
  intros Hsize. induction n as [|n IH]; intros j Hlen; simpl.
  - rewrite drop_ge; [done | lia].
  - rewrite IH by lia. unfold piece. rewrite Nat2Z.id.
    replace (S j * size)%nat with (j * size + size)%nat by lia.
    rewrite <- drop_drop. apply take_drop.
Qed.

(** What [splitIntoChunks] returns on a non-empty text. *)
Lemma splitIntoChunks_pieces text (numChunks : Z) :
  text <> [] -> 0 < numChunks ->
  let size := Math_ceil_div (js_length text) numChunks in
  1 <= size /\
  splitIntoChunks text numChunks
  = Normal (map (piece text size)
              (seq 0 (Z.to_nat (Math_ceil_div (js_length text) size)))).
Proof.
  intros Hne Hn size.
  assert (0 < js_length text) as Hlen.
  { unfold js_length. destruct text; [done | simpl; lia]. }
  assert (1 <= size) as Hsize by (by apply Math_ceil_div_pos).
  split; [done|].
  unfold splitIntoChunks. destruct (Z.leb_spec numChunks 0) as [|_]; [lia|].
  fold size.
  pose proof (chunk_loop_pieces text size Hsize (length text) 0 []) as H.
  simpl in H. rewrite Nat.sub_0_r in H. apply H; [lia|].
  pose proof (Math_ceil_div_le (js_length text) size ltac:(lia) Hsize).
  unfold js_length in *. lia.
Qed.

(** The loop always comes to an end: the model never runs out of fuel. *)
Lemma splitIntoChunks_total text (numChunks : Z) :
  splitIntoChunks text numChunks <> Timeout.
Proof.
  destruct (Z_le_gt_dec numChunks 0) as [Hle|Hgt].
  - unfold splitIntoChunks. by destruct (Z.leb_spec numChunks 0); [|lia].
  - destruct text as [|c text].
    + unfold splitIntoChunks. by destruct (Z.leb_spec numChunks 0).
    + destruct (splitIntoChunks_pieces (c :: text) numChunks) as [_ ->];
        [done | lia | done].
Qed.

End Chunker.

Example splitIntoChunks_Hello_100 :
  splitIntoChunks (lit "Hello") 100
  = Normal [lit "H"; lit "e"; lit "l"; lit "l"; lit "o"].
Proof. reflexivity. Qed.

Example splitIntoChunks_Hello_2 :
  splitIntoChunks (lit "Hello") 2 = Normal [lit "Hel"; lit "lo"].
Proof. reflexivity. Qed.

Example splitIntoChunks_empty : splitIntoChunks [] 100 = Normal [].
Proof. reflexivity. Qed.

Example number_to_string_120 : number_to_string 120 = lit "120".
Proof. reflexivity. Qed.

Section ChunkerClaims.

Implicit Types (text : jsstr) (chunks : list jsstr).

(** C1. For every string [text] and every integer [count > 0],
    [splitIntoChunks text count] returns, and concatenating the chunks it
    returns, in order, gives [text] back exactly: nothing is lost,
    nothing is duplicated, no two chunks overlap. *)
Theorem splitIntoChunks_concat text (count : Z) :
  0 < count ->
  exists chunks,
    splitIntoChunks text count = Normal chunks /\ concat chunks = text.
Proof.
  intros Hcount. destruct text as [|c text].
  - exists []. split; [|done].
    unfold splitIntoChunks. by destruct (Z.leb_spec count 0); [lia|].
  - destruct (splitIntoChunks_pieces (c :: text) count) as [Hsize ->];
      [done | done |].
    eexists. split; [done|].
    set (size := Math_ceil_div (js_length (c :: text)) count) in *.
    pose proof (Math_ceil_div_spec (js_length (c :: text)) size ltac:(lia)).
    replace size with (Z.of_nat (Z.to_nat size)) at 1 by lia.
    rewrite concat_pieces; [done | lia |].
    unfold js_length in *. nia.
Qed.

Lemma splitIntoChunks_concat_witness :
  0 < 2 /\
  exists chunks,
    splitIntoChunks (lit "Hello") 2 = Normal chunks
    /\ concat chunks = lit "Hello".
Proof.
  split; [reflexivity | apply (splitIntoChunks_concat (lit "Hello") 2); reflexivity].
Defined.

(** The chunks of a non-empty text, one by one. *)
Lemma splitIntoChunks_nth text (count : Z) :
  text <> [] -> 0 < count ->
  let size := Math_ceil_div (js_length text) count in
  exists chunks,
    splitIntoChunks text count = Normal chunks
    /\ Z.of_nat (length chunks) = Math_ceil_div (js_length text) size
    /\ 1 <= size
    /\ forall k : nat, (k < length chunks)%nat ->
         chunks !! k = Some (piece text size k)
         /\ piece text size k
            = slice text (Z.of_nat k * size) (Z.of_nat k * size + size)
         /\ js_length (piece text size k)
            = Z.min size (js_length text - Z.of_nat k * size)
         /\ 1 <= js_length (piece text size k).
Proof.
  intros Hne Hcount size.
  destruct (splitIntoChunks_pieces text count Hne Hcount) as [Hsize Hsplit].
  fold size in Hsize, Hsplit.
  pose proof (Math_ceil_div_spec (js_length text) size ltac:(lia)) as Hcnt.
  set (cnt := Math_ceil_div (js_length text) size) in *.
  eexists. split; [exact Hsplit|].
  rewrite length_map, length_seq.
  assert (0 < js_length text) as Hlen.
  { unfold js_length. destruct text; [done | simpl; lia]. }
  split; [nia|]. split; [done|].
  intros k Hk. split; [|split].
  - rewrite list_lookup_fmap, lookup_seq_lt by done. done.
  - rewrite slice_take_drop by lia. unfold piece. do 2 f_equal. nia.
  - unfold js_length at 1 3. rewrite piece_length. nia.
Qed.

(** C3. For every non-empty [text] and every integer [count > 0], with
    [size = ceil (len text / count)], [splitIntoChunks text count]
    returns the successive pieces of [text] of width [size] taken at the
    offsets [0, size, 2 * size, ...] until the text is exhausted (the
    piece at offset [k * size] holds the [min size (len - k * size)]
    code units found there), and their number is [ceil (len text / size)].
    In particular a text of length 5 with [count = 100] has [size = 1]
    and gives exactly 5 chunks of one code unit. *)
Theorem splitIntoChunks_layout text (count : Z) :
  text <> [] -> 0 < count ->
  let size := Math_ceil_div (js_length text) count in
  exists chunks,
    splitIntoChunks text count = Normal chunks
    /\ Z.of_nat (length chunks) = Math_ceil_div (js_length text) size
    /\ (forall k : nat, (k < length chunks)%nat ->
          exists c,
            chunks !! k = Some c
            /\ c = take (Z.to_nat size) (drop (k * Z.to_nat size) text)
            /\ c = slice text (Z.of_nat k * size) (Z.of_nat k * size + size)
            /\ js_length c = Z.min size (js_length text - Z.of_nat k * size)
            /\ 1 <= js_length c)
    /\ (js_length text = 5 -> count = 100 ->
          size = 1 /\ length chunks = 5%nat
          /\ Forall (fun c => length c = 1%nat) chunks).
Proof.
  intros Hne Hcount size.
  destruct (splitIntoChunks_nth text count Hne Hcount)
    as (chunks & Hsplit & Hlen & Hsize & Hk).
  fold size in Hlen, Hsize, Hk.
  exists chunks. split; [done|]. split; [done|]. split.
  - intros k Hlt. destruct (Hk k Hlt) as (Hc & Hs & Hl & Hp).
    exists (piece text size k). by repeat split.
  - intros H5 H100. subst count.
    assert (size = 1) as Hs1.
    { pose proof (Math_ceil_div_spec (js_length text) 100 ltac:(lia)) as H.
      fold size in H. lia. }
    pose proof (Math_ceil_div_spec (js_length text) 1 ltac:(lia)) as H1.
    rewrite Hs1 in Hlen.
    split; [done|]. split; [lia|].
    apply Forall_forall. intros c Hc.
    apply list_elem_of_lookup in Hc as [k Hc].
    destruct (Hk k (lookup_lt_Some _ _ _ Hc)) as (Hc' & _ & Hl & Hp).
    rewrite Hc' in Hc. injection Hc as <-. unfold js_length in *. lia.
Qed.

Lemma splitIntoChunks_layout_witness :
  lit "Hello" <> [] /\ 0 < 100 /\
  exists chunks,
    splitIntoChunks (lit "Hello") 100 = Normal chunks
    /\ Z.of_nat (length chunks) = 5.
Proof.
  split; [discriminate|]. split; [reflexivity|].
  destruct (splitIntoChunks_layout (lit "Hello") 100) as (chunks & Hs & Hl & _).
  - discriminate.
  - reflexivity.
  - exists chunks. split; [exact Hs | exact Hl].
Defined.

(** C8, as the code has it. For every source body and every chunk count
    [> 0] no chunk is empty, whatever the length of the body; a body
    shorter than the chunk count is cut into as many one-code-unit chunks
    as it has code units, and no empty chunk trails them. *)
Theorem splitIntoChunks_no_empty_chunk text (count : Z) :
  0 < count ->
  exists chunks,
    splitIntoChunks text count = Normal chunks
    /\ Forall (fun c => c <> []) chunks
    /\ (js_length text < count ->
          length chunks = length text
          /\ Forall (fun c => length c = 1%nat) chunks).
Proof.
  intros Hcount. destruct text as [|c0 text].
  - exists []. split; [|by repeat constructor].
    unfold splitIntoChunks. by destruct (Z.leb_spec count 0); [lia|].
  - destruct (splitIntoChunks_nth (c0 :: text) count)
      as (chunks & Hs & Hl & Hsize & Hk); [done | done |].
    set (size := Math_ceil_div (js_length (c0 :: text)) count) in *.
    exists chunks. split; [done|]. split.
    + apply Forall_forall. intros c Hc.
      apply list_elem_of_lookup in Hc as [k Hc].
      destruct (Hk k (lookup_lt_Some _ _ _ Hc)) as (Hc' & _ & _ & Hpos).
      rewrite Hc' in Hc. injection Hc as <-. intros Hnil.
      rewrite Hnil in Hpos. unfold js_length in Hpos. simpl in Hpos. lia.
    + intros Hshort.
      assert (size = 1) as Hs1.
      { pose proof (Math_ceil_div_spec (js_length (c0 :: text)) count Hcount) as H.
        fold size in H.
        assert (0 < js_length (c0 :: text)) by (unfold js_length; simpl; lia).
        nia. }
      rewrite Hs1 in Hl.
      pose proof (Math_ceil_div_spec (js_length (c0 :: text)) 1 ltac:(lia)) as H1.
      split; [unfold js_length in *; lia|].
      apply Forall_forall. intros c Hc.
      apply list_elem_of_lookup in Hc as [k Hc].
      destruct (Hk k (lookup_lt_Some _ _ _ Hc)) as (Hc' & _ & Hmin & Hpos).
      rewrite Hc' in Hc. injection Hc as <-. unfold js_length in *. lia.
Qed.

Lemma splitIntoChunks_no_empty_chunk_witness :
  0 < 100 /\
  exists chunks,
    splitIntoChunks (lit "Hello") 100 = Normal chunks
    /\ Forall (fun c => c <> []) chunks.
Proof.
  split; [reflexivity|].
  destruct (splitIntoChunks_no_empty_chunk (lit "Hello") 100) as (chunks & Hs & Hne & _).
  - reflexivity.
  - exists chunks. split; [exact Hs | exact Hne].
Defined.

(** C8 as the specification words it fails: the body ["Hello"] is shorter
    than the chunk count 100, and the chunk sequence does not end with an
    empty string (no chunk is empty at all). *)
Lemma splitIntoChunks_trailing_empty_counterexample :
  js_length (lit "Hello") < 100
  /\ ~ (exists chunks,
          splitIntoChunks (lit "Hello") 100 = Normal chunks
          /\ last chunks = Some []).
Proof.
  split; [reflexivity|].
  intros (chunks & Hs & Hlast).
  vm_compute in Hs. injection Hs as <-. discriminate Hlast.
Qed.

End ChunkerClaims.

(** ** Running sequences and [try]/[catch] *)

Section Run.

Context {W : Type} (h : handler W).

Lemma and_then_emit {A B} ev (o : outcome A W) (k : A -> W -> outcome B W) :
  and_then (emit ev o) k = emit ev (and_then o k).
Proof. unfold and_then, emit. simpl. by destruct (result o). Qed.

Lemma or_else_emit {A} ev (o : outcome A W) (k : exn -> W -> outcome A W) :
  or_else (emit ev o) k = emit ev (or_else o k).
Proof. unfold or_else, emit. simpl. by destruct (result o). Qed.

Lemma run_bind {A B} (p : prog A) (f : A -> prog B) (w : W) :
  run h (bind p f) w = and_then (run h p w) (fun a w' => run h (f a) w').
Proof.
  revert w. induction p as [a|e| |l k IH|r k IH]; intros w; simpl.
  - unfold and_then. simpl. by destruct (run h (f a) w).
  - done.
  - done.
  - by rewrite and_then_emit, IH.
  - destruct (h r w) as [settled w']. by rewrite and_then_emit, IH.
Qed.

Lemma run_try_catch {A} (p : prog A) (c : exn -> prog A) (w : W) :
  run h (try_catch p c) w = or_else (run h p w) (fun e w' => run h (c e) w').
Proof.
  revert w. induction p as [a|e| |l k IH|r k IH]; intros w; simpl.
  - done.
  - unfold or_else. simpl. by destruct (run h (c e) w).
  - done.
  - by rewrite or_else_emit, IH.
  - destruct (h r w) as [settled w']. by rewrite or_else_emit, IH.
Qed.

Lemma run_settles {A} (p : prog A) (w : W) :
  settles p -> result (run h p w) <> Timeout.
Proof.
  intros Hp. revert w. induction Hp as [a|e|l k _ IH|r k _ IH]; intros w; simpl.
  - done.
  - done.
  - apply IH.
  - destruct (h r w) as [settled w']. apply IH.
Qed.

End Run.

Lemma settles_bind {A B} (p : prog A) (f : A -> prog B) :
  settles p -> (forall a, settles (f a)) -> settles (bind p f).
Proof.
  intros Hp Hf. induction Hp; simpl; try constructor; auto.
Qed.

Lemma settles_try_catch {A} (p : prog A) (c : exn -> prog A) :
  settles p -> (forall e, settles (c e)) -> settles (try_catch p c).
Proof.
  intros Hp Hc. induction Hp; simpl; try constructor; auto.
Qed.

Lemma settles_call {A} (c : completion A) : c <> Timeout -> settles (call c).
Proof. destruct c; simpl; [constructor | constructor | done]. Qed.

Lemma settles_await r : settles (await r).
Proof. constructor. intros [e|x]; constructor. Qed.

Lemma settles_console l : settles (console l).
Proof. repeat constructor. Qed.

Create HintDb settle.
#[local] Hint Resolve settles_bind settles_try_catch settles_await
  settles_console settles_Ret settles_Throw : settle.

Lemma settles_generateVectorEmbeddings text :
  settles (generateVectorEmbeddings text).
Proof.
  unfold generateVectorEmbeddings. apply settles_bind; [auto with settle|].
  intros [|e data]; constructor.
Qed.

Lemma settles_addToVectorDB entry chunkIndex :
  settles (addToVectorDB entry chunkIndex).
Proof.
  unfold addToVectorDB.
  apply settles_bind; [auto with settle|]. intros _.
  apply settles_bind; [auto with settle|]. intros existing.
  destruct (0 <? _); auto with settle.
Qed.

Lemma settles_deleteEmbeddingsForUrl url : settles (deleteEmbeddingsForUrl url).
Proof.
  unfold deleteEmbeddingsForUrl.
  apply settles_bind; [auto with settle|]. intros _.
  apply settles_bind; [auto with settle|]. intros embeddings.
  destruct (0 <? _); auto with settle.
Qed.

Lemma classify_links_total hrefs internal external :
  classify_links hrefs internal external <> Timeout.
Proof.
  revert internal external.
  induction hrefs as [|[l|] hrefs IH]; intros internal external; simpl; [done| |].
  - destruct (bool_decide _); [apply IH|].
    destruct (_ || _); apply IH.
  - done.
Qed.

Lemma settles_scrapeWebpage url : settles (scrapeWebpage url).
Proof.
  unfold scrapeWebpage. apply settles_bind; [auto with settle|]. intros data.
  apply settles_bind; [|auto with settle].
  apply settles_call, classify_links_total.
Qed.

Lemma ingest_chunks_cons url md chunk rest i :
  ingest_chunks url md (chunk :: rest) i
  = (chunkedBodyEmbeddings <- generateVectorEmbeddings chunk;;
     addToVectorDB
       {| e_embedding := chunkedBodyEmbeddings;
          e_url := url;
          e_metaData := md;
          e_body := Some chunk;
          e_head := JUndefined |}
       i;;
     ingest_chunks url md rest (i + 1)%N).
Proof. reflexivity. Qed.

Lemma settles_ingest_chunks url md rest i : settles (ingest_chunks url md rest i).
Proof.
  revert i. induction rest as [|chunk rest IH]; intros i; [constructor|].
  rewrite ingest_chunks_cons.
  apply settles_bind; [apply settles_generateVectorEmbeddings|]. intros e.
  apply settles_bind; [apply settles_addToVectorDB|]. intros _. apply IH.
Qed.

Lemma settles_ingest_try url : settles (ingest_try url).
Proof.
  unfold ingest_try.
  apply settles_bind; [auto with settle|]. intros _.
  apply settles_bind; [apply settles_deleteEmbeddingsForUrl|]. intros _.
  apply settles_bind; [apply settles_scrapeWebpage|]. intros scraped.
  unfold index_scraped.
  destruct (body scraped) as [[|c b]|]; [auto with settle| |auto with settle].
  apply settles_bind; [apply settles_call, splitIntoChunks_total|].
  intros bodyChunks.
  apply settles_bind; [auto with settle|]. intros _.
  apply settles_bind; [apply settles_ingest_chunks|]. auto with settle.
Qed.

(** ** The ingestion orchestrator never throws *)

Section IngestBoundary.

Context {W : Type} (h : handler W).

(** C5. For every url, every behaviour [h] of the collaborators (fetcher,
    embedding service, store: each call may resolve to anything or reject
    with any error) and every state [w] of the outside world, [ingest url]
    returns normally. A failure inside the call, that is the [try] block
    ending in an exception [e], is caught and reported: the run ends with
    the console line [ErrIngesting url e], after everything the [try]
    block did. *)
Theorem ingest_never_throws (url : jsstr) (w : W) :
  result (run h (ingest url) w) = Normal tt
  /\ forall e,
       result (run h (ingest_try url) w) = Abrupt e ->
       trace (run h (ingest url) w)
       = trace (run h (ingest_try url) w) ++ [EvLog (ErrIngesting url e)].
Proof.
  unfold ingest. rewrite run_try_catch. unfold or_else.
  pose proof (run_settles h (ingest_try url) w (settles_ingest_try url)) as Hs.
  destruct (result (run h (ingest_try url) w)) as [[]|e|]; simpl.
  - split; [done | discriminate].
  - split; [done|]. by intros e' [= <-].
  - done.
Qed.

End IngestBoundary.

(** ** The identity scheme *)

Lemma uint_units_digits d : Forall is_digit (uint_units d).
Proof.
  induction d; simpl; constructor; auto; unfold is_digit; lia.
Qed.

Lemma uint_units_inj d d' : uint_units d = uint_units d' -> d = d'.
Proof.
  revert d'. induction d; intros [] Heq; simpl in Heq;
    try discriminate; try done; f_equal; apply IHd; by injection Heq.
Qed.

Lemma number_to_string_inj n n' :
  number_to_string n = number_to_string n' -> n = n'.
Proof.
  intros Heq. by apply DecimalN.Unsigned.to_uint_inj, uint_units_inj.
Qed.

(** A list cut at its first element outside [P] is cut in one way only. *)
Lemma first_outside_unique {A} (P : A -> Prop) (l1 l2 r1 r2 : list A) x y :
  Forall P l1 -> Forall P l2 -> ~ P x -> ~ P y ->
  l1 ++ x :: r1 = l2 ++ y :: r2 -> l1 = l2 /\ r1 = r2.
Proof.
  intros H1. revert l2. induction H1 as [|a l1 Ha _ IH]; intros l2 H2 Hx Hy Heq.
  - destruct H2 as [|b l2 Hb _]; simpl in Heq.
    + by injection Heq.
    + injection Heq as -> _. done.
  - destruct H2 as [|b l2 Hb H2]; simpl in Heq.
    + injection Heq as -> _. done.
    + injection Heq as -> Heq. destruct (IH l2 H2 Hx Hy Heq) as [-> ->]. done.
Qed.

Lemma uniqueId_inj url1 i1 url2 i2 :
  uniqueId url1 i1 = uniqueId url2 i2 -> url1 = url2 /\ i1 = i2.
Proof.
  unfold uniqueId, number_to_string. intros Heq.
  apply (f_equal (@rev code_unit)) in Heq.
  rewrite !rev_app_distr in Heq. simpl in Heq.
  rewrite <- !app_assoc in Heq. simpl in Heq.
  apply (first_outside_unique is_digit) in Heq as [Hd Hu].
  - apply rev_inj, uint_units_inj, DecimalN.Unsigned.to_uint_inj in Hd.
    injection Hu as Hu. apply rev_inj in Hu. done.
  - apply List.Forall_rev, uint_units_digits.
  - apply List.Forall_rev, uint_units_digits.
  - unfold is_digit. lia.
  - unfold is_digit. lia.
Qed.

Lemma startsWith_app s t : startsWith (s ++ t) s = true.
Proof.
  induction s as [|c s IH]; [done|].
  cbn [startsWith app]. by rewrite N.eqb_refl.
Qed.

(** [startsWith] decides the literal prefix relation. *)
Lemma startsWith_prefix s p : startsWith s p = true <-> p `prefix_of` s.
Proof.
  revert s. induction p as [|c p IH]; intros [|d s]; cbn [startsWith].
  - split; [intros _; apply prefix_nil | done].
  - split; [intros _; apply prefix_nil | done].
  - split; [done | intros H; by apply prefix_nil_not in H].
  - destruct (N.eqb_spec c d) as [->|Hne].
    + rewrite IH. split; [apply prefix_cons | apply prefix_cons_inv_2].
    + split; [done|]. intros H. apply prefix_cons_inv_1 in H. congruence.
Qed.

Lemma units_uint_units d : units_uint (uint_units d) = d.
Proof. induction d; simpl; by f_equal. Qed.

(** C7. For every [sourceUrl] and every non-negative integer [chunkIndex]
    that is a safe integer (up to 2^53 - 1, array indices among them) the
    identifier is the string ["<url>_chunk_<index>"], the index in decimal
    digits that read back as [chunkIndex], and it is the id
    [addToVectorDB] looks up; the scheme is a function (deterministic), it
    is injective in the pair (url, index) over all strings, valid URLs
    among them, and every identifier made for a url has that url as a
    literal prefix. *)
Theorem uniqueId_scheme (url : jsstr) (chunkIndex : N) :
  (chunkIndex <= MAX_SAFE_INTEGER)%N ->
  uniqueId url chunkIndex = url ++ lit "_chunk_" ++ number_to_string chunkIndex
  /\ Forall is_digit (number_to_string chunkIndex)
  /\ N.of_uint (units_uint (number_to_string chunkIndex)) = chunkIndex
  /\ (forall W (h : handler W) (w : W) entry,
        e_url entry = url ->
        exists rest,
          trace (run h (addToVectorDB entry chunkIndex) w)
          = EvCall (GetOrCreateCollection WEB_COLLECTION)
            :: match fst (h (GetOrCreateCollection WEB_COLLECTION) w) with
               | inr _ =>
                   EvCall (CollectionGet (Some [uniqueId url chunkIndex])) :: rest
               | inl _ => []
               end)
  /\ (forall url' chunkIndex',
        (chunkIndex' <= MAX_SAFE_INTEGER)%N ->
        uniqueId url chunkIndex = uniqueId url' chunkIndex' ->
        url = url' /\ chunkIndex = chunkIndex')
  /\ startsWith (uniqueId url chunkIndex) url = true
  /\ url `prefix_of` uniqueId url chunkIndex.
Proof.
  intros _. split; [done|]. split; [apply uint_units_digits|].
  split; [|split; [|split; [|split]]].
  - unfold number_to_string. rewrite units_uint_units.
    apply DecimalN.Unsigned.of_to.
  - intros W h w entry <-. unfold addToVectorDB. simpl.
    destruct (h (GetOrCreateCollection WEB_COLLECTION) w) as [[e|[]] w1]; simpl.
    + by exists [].
    + destruct (h (CollectionGet _) w1) as [settled w2]. simpl. eauto.
  - intros url' chunkIndex' _. apply uniqueId_inj.
  - apply startsWith_app.
  - by eexists.
Qed.

(** ** Upsert and purge on a store that keeps its contract *)

Section StoreClaims.

Context {X : Type}.
Variable others : forall r : request, X -> (exn + response r) * X.
Variable on_duplicate : duplicate_policy.
Variable nearest : Z -> embedding -> gmap jsstr record -> list meta.

Local Abbreviation db := (chroma others on_duplicate nearest).

Implicit Types (s : gmap jsstr record) (x : X) (url id : jsstr).

Lemma lookup_store_delete s (l : list jsstr) id :
  store_delete s l !! id = if bool_decide (id ∈ l) then None else s !! id.
Proof.
  unfold store_delete. case_bool_decide.
  - by apply lookup_foldr_delete.
  - by apply lookup_foldr_delete_not_elem_of.
Qed.

Lemma elem_of_keys s id : id ∈ map fst (map_to_list s) <-> is_Some (s !! id).
Proof.
  rewrite list_elem_of_fmap. split.
  - intros ([k r] & -> & Hin). apply elem_of_map_to_list in Hin. by exists r.
  - intros [r Hr]. exists (id, r). split; [done|]. by apply elem_of_map_to_list.
Qed.

Lemma elem_of_List_filter {A} (f : A -> bool) (l : list A) a :
  a ∈ List.filter f l <-> a ∈ l /\ f a = true.
Proof. rewrite !list_elem_of_In. apply filter_In. Qed.

(** Exactly the records whose id starts with [url] are gone. *)
Lemma lookup_purged url s id :
  purged url s !! id = if startsWith id url then None else s !! id.
Proof.
  unfold purged.
  set (idsToDelete := List.filter _ _).
  assert (Hin : id ∈ idsToDelete <-> is_Some (s !! id) /\ startsWith id url = true).
  { subst idsToDelete. by rewrite elem_of_List_filter, elem_of_keys. }
  destruct (Z.ltb_spec 0 (Z.of_nat (length idsToDelete))) as [Hlt|Hge].
  - rewrite lookup_store_delete. case_bool_decide as Hd.
    + apply Hin in Hd as [_ ->]. done.
    + destruct (startsWith id url) eqn:Hsw; [|done].
      destruct (s !! id) as [r|] eqn:Hs; [|done].
      exfalso. apply Hd, Hin. eauto.
  - destruct idsToDelete as [|? ?]; [|simpl in Hge; lia].
    destruct (startsWith id url) eqn:Hsw; [|done].
    destruct (s !! id) as [r|] eqn:Hs; [|done].
    exfalso. assert (id ∈ @nil jsstr) as Hnil by (apply Hin; eauto).
    by apply elem_of_nil in Hnil.
Qed.

Lemma run_deleteEmbeddingsForUrl url s x :
  run db (deleteEmbeddingsForUrl url) (s, x)
  = Outcome (Normal tt) (purged url s, x) (purge_trace url s).
Proof.
  unfold deleteEmbeddingsForUrl, purged, purge_trace. simpl.
  destruct (0 <? _); reflexivity.
Qed.

Lemma run_addToVectorDB entry chunkIndex s x :
  let id := uniqueId (e_url entry) chunkIndex in
  run db (addToVectorDB entry chunkIndex) (s, x)
  = match s !! id with
    | Some _ =>
        Outcome (Normal tt) (s, x)
          [EvCall (GetOrCreateCollection WEB_COLLECTION);
           EvCall (CollectionGet (Some [id]));
           EvLog (LogAlreadyExists id)]
    | None =>
        Outcome (Normal tt) (<[id := indexed_record entry chunkIndex]> s, x)
          [EvCall (GetOrCreateCollection WEB_COLLECTION);
           EvCall (CollectionGet (Some [id]));
           EvCall (CollectionAdd id (e_embedding entry)
                     (r_meta (indexed_record entry chunkIndex)));
           EvLog (LogAdded id)]
    end.
Proof.
  intros id. unfold addToVectorDB. fold id. simpl.
  destruct (s !! id) as [r|] eqn:Hs.
  - rewrite bool_decide_eq_true_2 by eauto. reflexivity.
  - rewrite bool_decide_eq_false_2 by (by intros [? ?]). simpl.
    unfold store_add. rewrite Hs. reflexivity.
Qed.

Lemma run_scrapeWebpage url s x :
  run db (scrapeWebpage url) (s, x)
  = match others (AxiosGet url) x with
    | (inl e, x') => Outcome (Abrupt e) (s, x') [EvCall (AxiosGet url)]
    | (inr data, x') =>
        Outcome
          match classify_links (p_hrefs data) [] [] with
          | Normal links =>
              Normal {| metaData := p_head data;
                        body := p_body data;
                        internalLinks := fst links;
                        externalLinks := snd links |}
          | Abrupt e => Abrupt e
          | Timeout => Timeout
          end
          (s, x') [EvCall (AxiosGet url)]
    end.
Proof.
  unfold scrapeWebpage. simpl.
  destruct (others (AxiosGet url) x) as [[e|data] x']; simpl; [done|].
  by destruct (classify_links (p_hrefs data) [] []).
Qed.

(** The [try] block under the store: the purge first, then the fetch and
    all that follows it, run on the purged store. *)
Lemma run_ingest_try url s x :
  run db (ingest_try url) (s, x)
  = emit (EvLog (LogIngesting url))
      (and_then (Outcome (Normal tt) (purged url s, x) (purge_trace url s))
         (fun _ w =>
            and_then (run db (scrapeWebpage url) w)
              (fun scraped w' => run db (index_scraped url scraped) w'))).
Proof.
  unfold ingest_try.
  change (run db (console (LogIngesting url);; ?q) ?w)
    with (emit (EvLog (LogIngesting url)) (run db q w)).
  rewrite run_bind, run_deleteEmbeddingsForUrl.
  unfold and_then at 1 3. cbn [result world trace]. by rewrite run_bind.
Qed.

Lemma purge_trace_no_fetch url s : Forall (fun ev => ~ is_fetch ev) (purge_trace url s).
Proof.
  unfold purge_trace. destruct (0 <? _); repeat constructor; simpl; tauto.
Qed.

Lemma trace_and_then {A B W} (o : outcome A W) (k : A -> W -> outcome B W) :
  exists t, trace (and_then o k) = trace o ++ t.
Proof.
  unfold and_then. destruct (result o); simpl; eauto using app_nil_r.
  all: exists []; by rewrite app_nil_r.
Qed.

Lemma trace_or_else {A W} (o : outcome A W) (k : exn -> W -> outcome A W) :
  exists t, trace (or_else o k) = trace o ++ t.
Proof.
  unfold or_else. destruct (result o); simpl; eauto using app_nil_r.
  all: exists []; by rewrite app_nil_r.
Qed.

(** C2, as the code has it. For every identifier
    [I = uniqueId url chunkIndex] and every state of the store,
    [addToVectorDB] returns no value: it ends with [undefined] whether it
    inserted or skipped, and what tells the two apart is the console
    line. If a record with id [I] is present, the upsert makes no write
    (the only store calls are the collection lookup and the [get] of [I]),
    the whole store, the record of [I] included, is left as it was, and
    the console line "already exists" is written. If no record with id
    [I] is present, exactly one record is inserted, with id [I], the given
    embedding and, in its metadata, the url, the chunk text as [body]
    (the empty string when there is none) and the chunk index; every
    other id keeps its record, and the console line "Added" is written. *)
Theorem addToVectorDB_dedup_logged (entry : vector_entry) (chunkIndex : N) s x :
  let I := uniqueId (e_url entry) chunkIndex in
  let o := run db (addToVectorDB entry chunkIndex) (s, x) in
  result o = Normal tt
  /\ (forall r, s !! I = Some r ->
        world o = (s, x)
        /\ fst (world o) !! I = Some r
        /\ trace o = [EvCall (GetOrCreateCollection WEB_COLLECTION);
                      EvCall (CollectionGet (Some [I]));
                      EvLog (LogAlreadyExists I)]
        /\ Forall (fun ev => ~ is_write ev) (trace o))
  /\ (s !! I = None ->
      exists new,
        world o = (<[I := new]> s, x)
        /\ r_embedding new = e_embedding entry
        /\ m_url (r_meta new) = JString (e_url entry)
        /\ m_body (r_meta new) = JString (default [] (e_body entry))
        /\ m_chunkIndex (r_meta new) = JNumber (Z.of_N chunkIndex)
        /\ fst (world o) !! I = Some new
        /\ (forall id, id <> I -> fst (world o) !! id = s !! id)
        /\ size (fst (world o)) = S (size s)
        /\ trace o = [EvCall (GetOrCreateCollection WEB_COLLECTION);
                      EvCall (CollectionGet (Some [I]));
                      EvCall (CollectionAdd I (e_embedding entry) (r_meta new));
                      EvLog (LogAdded I)]).
Proof.
  intros I o. subst o. rewrite run_addToVectorDB. fold I. split; [|split].
  - by destruct (s !! I).
  - intros r Hr. rewrite Hr. simpl. repeat split; try done.
    repeat constructor; simpl; tauto.
  - intros Hnone. rewrite Hnone. exists (indexed_record entry chunkIndex).
    simpl. repeat split; try done.
    + apply lookup_insert_eq.
    + intros id Hne. by apply lookup_insert_ne.
    + by apply map_size_insert_None.
Qed.

(** C4. For every url and every state of the store,
    [deleteEmbeddingsForUrl url] deletes exactly the records whose id has
    [url] as a literal prefix and leaves every other record as it was;
    and [ingest url] runs this purge to its end before it fetches the
    page: in the run of [ingest] all the calls of the purge come first
    (none of them is the fetch), and the fetch of [url] comes right after
    them. *)
Theorem deleteEmbeddingsForUrl_purges (url : jsstr) s x :
  let o := run db (deleteEmbeddingsForUrl url) (s, x) in
  result o = Normal tt
  /\ snd (world o) = x
  /\ (forall id,
        fst (world o) !! id = if startsWith id url then None else s !! id)
  /\ (forall id, url `prefix_of` id -> fst (world o) !! id = None)
  /\ (forall id, ~ url `prefix_of` id -> fst (world o) !! id = s !! id)
  /\ Forall (fun ev => ~ is_fetch ev) (trace o)
  /\ exists rest,
       trace (run db (ingest url) (s, x))
       = EvLog (LogIngesting url) :: trace o ++ EvCall (AxiosGet url) :: rest.
Proof.
  intros o. subst o. rewrite run_deleteEmbeddingsForUrl.
  cbn [result world trace fst snd].
  split; [done|]. split; [done|]. split; [apply lookup_purged|].
  split; [|split; [|split]].
  - intros id Hp. rewrite lookup_purged.
    apply startsWith_prefix in Hp. by rewrite Hp.
  - intros id Hp. rewrite lookup_purged.
    destruct (startsWith id url) eqn:Hsw; [|done].
    by apply startsWith_prefix in Hsw.
  - apply purge_trace_no_fetch.
  - unfold ingest. rewrite run_try_catch.
    destruct (trace_or_else (run db (ingest_try url) (s, x))
                (fun e w' => run db (ingest_catch url e) w')) as [t1 ->].
    rewrite run_ingest_try. unfold and_then at 1. cbn [result world trace emit].
    destruct (trace_and_then (run db (scrapeWebpage url) (purged url s, x))
                (fun scraped w' => run db (index_scraped url scraped) w'))
      as [t2 ->].
    assert (trace (run db (scrapeWebpage url) (purged url s, x))
            = [EvCall (AxiosGet url)]) as ->.
    { rewrite run_scrapeWebpage.
      by destruct (others (AxiosGet url) x) as [[e|data] x']. }
    exists (t2 ++ t1). simpl. by rewrite <- !app_assoc.
Qed.

(** C9. For every url and every state of the store, if the fetch that
    [ingest url] makes fails (the request is rejected, or an anchor has
    no [href]) or yields an empty or absent body, the call still returns
    with every record whose id starts with [url] deleted and all other
    records as they were: the purge came first. Nothing is added, so a
    url that had records before has none after, and the store is not
    left unchanged. *)
Theorem ingest_empty_body_wipes (url : jsstr) s x :
  match fst (others (AxiosGet url) x) with
  | inl _ => True
  | inr data =>
      p_body data = None \/ p_body data = Some []
      \/ exists e, classify_links (p_hrefs data) [] [] = Abrupt e
  end ->
  let o := run db (ingest url) (s, x) in
  result o = Normal tt
  /\ (forall id,
        fst (world o) !! id = if startsWith id url then None else s !! id)
  /\ (forall id, url `prefix_of` id -> fst (world o) !! id = None)
  /\ Forall (fun ev => forall id e m, ev <> EvCall (CollectionAdd id e m)) (trace o)
  /\ ((exists id, url `prefix_of` id /\ is_Some (s !! id)) -> fst (world o) <> s).
Proof.
  intros Hfetch o.
  assert (Hrun : exists t, Forall (fun ev => forall id e m, ev <> EvCall (CollectionAdd id e m)) t
                 /\ exists x', o = Outcome (Normal tt) (purged url s, x')
                           (EvLog (LogIngesting url) :: purge_trace url s ++ t)).
  { subst o. unfold ingest. rewrite run_try_catch, run_ingest_try.
    unfold and_then at 1. cbn [result world trace emit].
    rewrite run_scrapeWebpage.
    destruct (others (AxiosGet url) x) as [[e|data] x']; simpl in Hfetch.
    - eexists. split; [|exists x'; unfold and_then, or_else; simpl;
                         rewrite <- app_assoc; reflexivity].
      repeat constructor; discriminate.
    - destruct Hfetch as [Hb|[Hb|[e He]]].
      + destruct (classify_links (p_hrefs data) [] []) as [links|e|] eqn:Hl.
        * eexists. split; [|exists x'; unfold and_then, or_else, index_scraped;
                             simpl; rewrite Hb; simpl; reflexivity].
          repeat constructor; discriminate.
        * eexists. split; [|exists x'; unfold and_then, or_else; simpl;
                             rewrite <- app_assoc; reflexivity].
          repeat constructor; discriminate.
        * by apply classify_links_total in Hl.
      + destruct (classify_links (p_hrefs data) [] []) as [links|e|] eqn:Hl.
        * eexists. split; [|exists x'; unfold and_then, or_else, index_scraped;
                             simpl; rewrite Hb; simpl; reflexivity].
          repeat constructor; discriminate.
        * eexists. split; [|exists x'; unfold and_then, or_else; simpl;
                             rewrite <- app_assoc; reflexivity].
          repeat constructor; discriminate.
        * by apply classify_links_total in Hl.
      + rewrite He.
        eexists. split; [|exists x'; unfold and_then, or_else; simpl;
                           rewrite <- app_assoc; reflexivity].
        repeat constructor; discriminate. }
  destruct Hrun as (t & Ht & x' & ->). cbn [result world trace fst].
  split; [done|]. split; [apply lookup_purged|]. split; [|split].
  - intros id Hp. rewrite lookup_purged.
    apply startsWith_prefix in Hp. by rewrite Hp.
  - constructor; [discriminate|]. apply Forall_app. split; [|done].
    unfold purge_trace. destruct (0 <? _); repeat constructor; discriminate.
  - intros (id & Hp & [r Hr]) Heq.
    pose proof (lookup_purged url s id) as Hl. rewrite Heq, Hr in Hl.
    apply startsWith_prefix in Hp. by rewrite Hp in Hl.
Qed.

End StoreClaims.

(** ** The retrieval orchestrator *)

Lemma trimStart_nil s : trimStart s = [] <-> blank s = true.
Proof.
  unfold blank. induction s as [|c s IH]; simpl; [done|].
  destruct (is_white c); simpl; [done|]. split; discriminate.
Qed.

Lemma trimStart_blank_head s : blank (trimStart s) = true -> trimStart s = [].
Proof.
  induction s as [|c s IH]; simpl; [done|].
  destruct (is_white c) eqn:Hc; [done|]. unfold blank. simpl. by rewrite Hc.
Qed.

Lemma blank_rev s : blank (rev s) = blank s.
Proof.
  unfold blank. apply eq_true_iff_eq.
  rewrite !forallb_forall. split; intros H c Hc; apply H; by apply in_rev in Hc || apply in_rev.
Qed.

(** [e.trim() === ''] exactly when [e] is empty or white space only. *)
Lemma trim_nil s : trim s = [] <-> blank s = true.
Proof.
  unfold trim, trimEnd. split.
  - intros H. apply (f_equal (@rev code_unit)) in H. rewrite rev_involutive in H.
    simpl in H. apply trimStart_nil in H. rewrite blank_rev in H.
    apply trimStart_blank_head in H. by apply trimStart_nil.
  - intros H. apply trimStart_nil in H. by rewrite H.
Qed.

Lemma trim_nonempty_string s : trim_nonempty (JString s) = Normal (negb (blank s)).
Proof.
  unfold trim_nonempty. f_equal. case_bool_decide as Ht.
  - apply trim_nil in Ht. by rewrite Ht.
  - destruct (blank s) eqn:Hb; [by apply trim_nil in Hb|].
    simpl. destruct s; [done|]. by rewrite bool_decide_eq_false_2.
Qed.

Lemma js_filter_strings vs :
  Forall is_string vs -> js_filter trim_nonempty vs = Normal (List.filter nonblank vs).
Proof.
  induction 1 as [|v vs Hv _ IH]; [done|].
  destruct v as [| |s|n]; try done.
  cbn [js_filter List.filter]. rewrite trim_nonempty_string, IH. done.
Qed.

Lemma js_filter_not_string vs :
  Exists (fun v => ~ is_string v) vs -> js_filter trim_nonempty vs = Abrupt TypeError.
Proof.
  induction 1 as [v vs Hv|v vs _ IH].
  - destruct v as [| |s|n]; try done.
  - cbn [js_filter]. rewrite IH. by destruct v as [| |s|n].
Qed.

Lemma js_filter_abrupt vs e :
  js_filter trim_nonempty vs = Abrupt e -> e = TypeError.
Proof.
  induction vs as [|v vs IH]; [done|]. cbn [js_filter].
  destruct v as [| |s|n]; try by intros [= <-].
  rewrite trim_nonempty_string.
  by destruct (js_filter trim_nonempty vs).
Qed.

Lemma js_filter_total vs : js_filter trim_nonempty vs <> Timeout.
Proof.
  induction vs as [|v vs IH]; [done|]. cbn [js_filter].
  destruct v as [| |s|n]; try done.
  rewrite trim_nonempty_string.
  by destruct (js_filter trim_nonempty vs).
Qed.

Section ChatClaims.

Context {W : Type} (h : handler W).
Variables (question : jsstr) (w w1 w2 w3 : W).
Variables (emb : embedding) (data : list embedding).
Variables (recs : list meta) (more : list (list meta)).

(** The embedding service and the store answer the calls of [chat]. *)
Hypothesis Hemb :
  h (EmbeddingsCreate "text-embedding-3-small" question) w = (inr (emb :: data), w1).
Hypothesis Hcoll :
  h (GetOrCreateCollection WEB_COLLECTION) w1 = (inr tt, w2).
Hypothesis Hquery :
  h (CollectionQuery 3 emb) w2 = (inr (recs :: more), w3).

Lemma run_chat :
  exists o,
    run h (chat question) w
    = Outcome (result o) (world o) (retrieval_calls question emb ++ trace o)
    /\ o = match js_filter trim_nonempty (map m_body recs) with
           | Normal body =>
               match js_filter trim_nonempty (map m_url recs) with
               | Normal url =>
                   emit (EvCall (completion_request question url body))
                     match h (completion_request question url body) w3 with
                     | (inr (content :: _), w4) =>
                         Outcome (Normal tt) w4
                           [EvLog (LogAnswer content (hd JUndefined url))]
                     | (inr [], w4) => Outcome (Abrupt TypeError) w4 []
                     | (inl e, w4) => Outcome (Abrupt e) w4 []
                     end
               | Abrupt e => Outcome (Abrupt e) w3 []
               | Timeout => Outcome Timeout w3 []
               end
           | Abrupt e => Outcome (Abrupt e) w3 []
           | Timeout => Outcome Timeout w3 []
           end.
Proof.
  eexists. split; [|reflexivity].
  unfold chat, generateVectorEmbeddings, retrieval_calls.
  cbn [bind await run]. rewrite Hemb. cbn [bind await run]. rewrite Hcoll.
  cbn [bind await run]. rewrite Hquery. cbn [bind await run].
  destruct (js_filter trim_nonempty (map m_body recs)) as [body|e|]; [|done|done].
  destruct (js_filter trim_nonempty (map m_url recs)) as [url|e|]; [|done|done].
  cbn [call bind await run]. fold (completion_request question url body).
  destruct (h (completion_request question url body) w3) as [[e|[|content choices]] w4]; done.
Qed.

(** C6, as the code has it. For every question and every sequence of
    records returned by the query, with string [body] and [url] fields,
    [chat] keeps, in retrieval order, the bodies that are not empty or
    white space only, and it keeps, in retrieval order, the urls that are
    not empty or white space only: each list is filtered on its own
    values. The user message of the completion request holds the url list
    and the body list, each joined with [", "]. *)
Theorem chat_lists_filtered_separately :
  Forall (fun m => is_string (m_body m) /\ is_string (m_url m)) recs ->
  let body := List.filter nonblank (map m_body recs) in
  let url := List.filter nonblank (map m_url recs) in
  js_filter trim_nonempty (map m_body recs) = Normal body
  /\ js_filter trim_nonempty (map m_url recs) = Normal url
  /\ exists rest,
       trace (run h (chat question) w)
       = [EvCall (EmbeddingsCreate "text-embedding-3-small" question);
          EvCall (GetOrCreateCollection WEB_COLLECTION);
          EvCall (CollectionQuery 3 emb);
          EvCall (ChatCompletionsCreate "gpt-3.5-turbo"
                    [(RoleSystem, system_content);
                     (RoleUser,
                      lit "Query: " ++ question ++ newline ++ newline ++ newline
                      ++ lit "                 URl: "
                      ++ join (lit ", ") (map ToString url)
                      ++ newline ++ newline ++ newline
                      ++ lit "                 Retrieved conext: "
                      ++ join (lit ", ") (map ToString body))])]
         ++ rest.
Proof.
  intros Hstr body url.
  assert (js_filter trim_nonempty (map m_body recs) = Normal body) as Hb.
  { apply js_filter_strings. apply Forall_fmap.
    eapply Forall_impl; [exact Hstr|]. by intros m [? ?]. }
  assert (js_filter trim_nonempty (map m_url recs) = Normal url) as Hu.
  { apply js_filter_strings. apply Forall_fmap.
    eapply Forall_impl; [exact Hstr|]. by intros m [? ?]. }
  split; [done|]. split; [done|].
  destruct run_chat as (o & -> & ->). rewrite Hb, Hu.
  cbn [trace emit retrieval_calls app].
  eexists. reflexivity.
Qed.

Lemma js_filter_normal_strings vs kept :
  js_filter trim_nonempty vs = Normal kept -> Forall is_string vs.
Proof.
  revert kept. induction vs as [|v vs IH]; intros kept Hk; [constructor|].
  cbn [js_filter] in Hk.
  destruct v as [| |s|n]; try done.
  rewrite trim_nonempty_string in Hk.
  destruct (js_filter trim_nonempty vs) as [r|e|]; try done.
  constructor; [done | by eapply IH].
Qed.

(** C10. In both filters of [chat] the predicate calls [e.trim()] before
    it tests [!!e]: on [null] and on [undefined] it throws a [TypeError]
    where the existence test alone would have answered [false]. So a
    filter comes to an end without throwing only when every value is a
    string, and when the query returns a record whose [body] or [url] is
    [null] or [undefined], [chat] throws a [TypeError] right after the
    query: the record is not filtered out, no completion is requested. *)
Theorem chat_throws_on_missing_field :
  (trim_nonempty JNull = Abrupt TypeError /\ truthy JNull = false)
  /\ (trim_nonempty JUndefined = Abrupt TypeError /\ truthy JUndefined = false)
  /\ (forall vs,
        (exists kept, js_filter trim_nonempty vs = Normal kept)
        <-> Forall is_string vs)
  /\ (Exists (fun m => m_body m = JNull \/ m_body m = JUndefined
                       \/ m_url m = JNull \/ m_url m = JUndefined) recs ->
      result (run h (chat question) w) = Abrupt TypeError
      /\ world (run h (chat question) w) = w3
      /\ trace (run h (chat question) w)
         = [EvCall (EmbeddingsCreate "text-embedding-3-small" question);
            EvCall (GetOrCreateCollection WEB_COLLECTION);
            EvCall (CollectionQuery 3 emb)]).
Proof.
  split; [done|]. split; [done|]. split.
  - intros vs. split.
    + intros [kept Hk]. by eapply js_filter_normal_strings.
    + intros Hs. eexists. by apply js_filter_strings.
  - intros Hex. destruct run_chat as (o & -> & ->).
    cbn [result world trace].
    assert (js_filter trim_nonempty (map m_body recs) = Abrupt TypeError
            \/ js_filter trim_nonempty (map m_url recs) = Abrupt TypeError)
      as [Hb|Hu].
    { apply Exists_exists in Hex as (m & Hin & Hm).
      destruct Hm as [Hm|[Hm|[Hm|Hm]]].
      - left. apply js_filter_not_string, Exists_exists.
        exists (m_body m). split; [by apply list_elem_of_fmap_2|]. rewrite Hm. intros [].
      - left. apply js_filter_not_string, Exists_exists.
        exists (m_body m). split; [by apply list_elem_of_fmap_2|]. rewrite Hm. intros [].
      - right. apply js_filter_not_string, Exists_exists.
        exists (m_url m). split; [by apply list_elem_of_fmap_2|]. rewrite Hm. intros [].
      - right. apply js_filter_not_string, Exists_exists.
        exists (m_url m). split; [by apply list_elem_of_fmap_2|]. rewrite Hm. intros []. }
    + rewrite Hb. by rewrite app_nil_r.
    + rewrite Hu.
      destruct (js_filter trim_nonempty (map m_body recs)) as [body|e|] eqn:Hb.
      * by rewrite app_nil_r.
      * apply js_filter_abrupt in Hb as ->. by rewrite app_nil_r.
      * by apply js_filter_total in Hb.
Qed.

End ChatClaims.

(** ** The properties at concrete inputs *)

Lemma addToVectorDB_dedup_logged_witness :
  (store_ab !! uniqueId url_a 0 = Some (indexed_record entry_a 0)
   /\ world (run (db_with (inr page_hello)) (addToVectorDB entry_a 0) (store_ab, tt))
      = (store_ab, tt)
   /\ trace (run (db_with (inr page_hello)) (addToVectorDB entry_a 0) (store_ab, tt))
      = [EvCall (GetOrCreateCollection WEB_COLLECTION);
         EvCall (CollectionGet (Some [uniqueId url_a 0]));
         EvLog (LogAlreadyExists (uniqueId url_a 0))])
  /\ ((∅ : gmap jsstr record) !! uniqueId url_a 0 = None
      /\ exists new,
           world (run (db_with (inr page_hello)) (addToVectorDB entry_a 0) (∅, tt))
           = (<[uniqueId url_a 0 := new]> ∅, tt)
           /\ m_body (r_meta new) = JString (lit "Hello")).
Proof.
  split.
  - assert (store_ab !! uniqueId url_a 0 = Some (indexed_record entry_a 0)) as H
      by (vm_compute; reflexivity).
    split; [exact H|].
    destruct (proj1 (proj2 (addToVectorDB_dedup_logged (scripted (inr page_hello) [])
                              RejectDuplicate first_n
                              entry_a 0 store_ab tt)) _ H) as (Hw & _ & Ht & _).
    split; [exact Hw | exact Ht].
  - assert ((∅ : gmap jsstr record) !! uniqueId url_a 0 = None) as H
      by (vm_compute; reflexivity).
    split; [exact H|].
    destruct (proj2 (proj2 (addToVectorDB_dedup_logged (scripted (inr page_hello) [])
                              RejectDuplicate first_n
                              entry_a 0 ∅ tt)) H)
      as (new & Hw & _ & _ & Hb & _).
    exists new. split; [exact Hw | exact Hb].
Defined.

(** C2 as the specification words it fails: the call made with the id
    present and the call made with the id absent end with the same value,
    [undefined], so nothing read off what [addToVectorDB] returns is an
    [inserted: false] in the first case and an [inserted: true] in the
    second. *)
Lemma addToVectorDB_returns_no_report :
  is_Some (store_ab !! uniqueId url_a 0)
  /\ (∅ : gmap jsstr record) !! uniqueId url_a 0 = None
  /\ result (run (db_with (inr page_hello)) (addToVectorDB entry_a 0) (store_ab, tt))
     = Normal tt
  /\ result (run (db_with (inr page_hello)) (addToVectorDB entry_a 0) (∅, tt))
     = Normal tt
  /\ ~ (exists inserted : completion unit -> bool,
          inserted (result (run (db_with (inr page_hello))
                              (addToVectorDB entry_a 0) (store_ab, tt))) = false
          /\ inserted (result (run (db_with (inr page_hello))
                                 (addToVectorDB entry_a 0) (∅, tt))) = true).
Proof.
  assert (result (run (db_with (inr page_hello)) (addToVectorDB entry_a 0)
                    (store_ab, tt)) = Normal tt) as H1 by (vm_compute; reflexivity).
  assert (result (run (db_with (inr page_hello)) (addToVectorDB entry_a 0)
                    (∅, tt)) = Normal tt) as H2 by (vm_compute; reflexivity).
  split; [vm_compute; by eexists|]. split; [vm_compute; reflexivity|].
  split; [exact H1|]. split; [exact H2|].
  intros (inserted & Hf & Ht). rewrite H1 in Hf. rewrite H2 in Ht. congruence.
Qed.

Lemma deleteEmbeddingsForUrl_purges_witness :
  (url_a `prefix_of` uniqueId url_a 0
   /\ fst (world (run (db_with (inr page_hello)) (deleteEmbeddingsForUrl url_a)
                    (store_ab, tt))) !! uniqueId url_a 0 = None)
  /\ (~ url_a `prefix_of` uniqueId url_b 0
      /\ fst (world (run (db_with (inr page_hello)) (deleteEmbeddingsForUrl url_a)
                       (store_ab, tt))) !! uniqueId url_b 0
         = store_ab !! uniqueId url_b 0).
Proof.
  pose proof (deleteEmbeddingsForUrl_purges (scripted (inr page_hello) [])
                RejectDuplicate first_n url_a store_ab tt) as H.
  cbv zeta in H. destruct H as (_ & _ & _ & Hin & Hout & _).
  split.
  - assert (url_a `prefix_of` uniqueId url_a 0) as Hp by (by eexists).
    split; [exact Hp | exact (Hin _ Hp)].
  - assert (~ url_a `prefix_of` uniqueId url_b 0) as Hp.
    { intros Hp. apply startsWith_prefix in Hp. vm_compute in Hp. discriminate. }
    split; [exact Hp | exact (Hout _ Hp)].
Defined.

Lemma ingest_never_throws_witness :
  result (run rejecting (ingest_try url_a) tt) = Abrupt (Rejected Chroma 503)
  /\ result (run rejecting (ingest url_a) tt) = Normal tt
  /\ trace (run rejecting (ingest url_a) tt)
     = trace (run rejecting (ingest_try url_a) tt)
       ++ [EvLog (ErrIngesting url_a (Rejected Chroma 503))].
Proof.
  assert (result (run rejecting (ingest_try url_a) tt)
          = Abrupt (Rejected Chroma 503)) as H by reflexivity.
  split; [exact H|].
  destruct (ingest_never_throws rejecting url_a tt) as [Hr Ht].
  split; [exact Hr | exact (Ht _ H)].
Defined.

Lemma uniqueId_scheme_witness :
  (12 <= MAX_SAFE_INTEGER)%N
  /\ uniqueId url_a 12 = lit "http://a_chunk_12"
  /\ N.of_uint (units_uint (number_to_string 12)) = 12%N
  /\ (uniqueId url_a 12 = uniqueId url_a 12 -> url_a = url_a /\ 12%N = 12%N)
  /\ startsWith (uniqueId url_a 12) url_a = true.
Proof.
  assert (12 <= MAX_SAFE_INTEGER)%N as Hsafe by (by vm_compute).
  split; [exact Hsafe|].
  destruct (uniqueId_scheme url_a 12 Hsafe) as (Hid & _ & Hread & _ & Hinj & Hsw & _).
  split; [exact Hid|]. split; [exact Hread|].
  split; [exact (Hinj url_a 12%N Hsafe) | exact Hsw].
Defined.

Lemma ingest_empty_body_wipes_witness :
  is_Some (store_ab !! uniqueId url_a 0)
  /\ result (run (db_with (inr page_empty)) (ingest url_a) (store_ab, tt)) = Normal tt
  /\ fst (world (run (db_with (inr page_empty)) (ingest url_a) (store_ab, tt)))
       !! uniqueId url_a 0 = None
  /\ fst (world (run (db_with (inl (Rejected Axios 404))) (ingest url_a) (store_ab, tt)))
       !! uniqueId url_a 0 = None.
Proof.
  assert (url_a `prefix_of` uniqueId url_a 0) as Hp by (by eexists).
  split; [by eexists|].
  pose proof (ingest_empty_body_wipes (scripted (inr page_empty) [])
                RejectDuplicate first_n url_a store_ab tt
                (or_intror (or_introl eq_refl))) as H1.
  pose proof (ingest_empty_body_wipes (scripted (inl (Rejected Axios 404)) [])
                RejectDuplicate first_n url_a store_ab tt I) as H2.
  cbv zeta in H1, H2.
  destruct H1 as (Hr & _ & Hgone & _). destruct H2 as (_ & _ & Hgone' & _).
  split; [exact Hr|]. split; [exact (Hgone _ Hp) | exact (Hgone' _ Hp)].
Defined.

Lemma chat_lists_filtered_separately_witness :
  Forall (fun m => is_string (m_body m) /\ is_string (m_url m)) recs_blank_first
  /\ js_filter trim_nonempty (map m_body recs_blank_first)
     = Normal [JString (lit "x")]
  /\ js_filter trim_nonempty (map m_url recs_blank_first)
     = Normal [JString url_a; JString url_b].
Proof.
  assert (Forall (fun m => is_string (m_body m) /\ is_string (m_url m))
            recs_blank_first) as Hs.
  { repeat constructor. }
  split; [exact Hs|].
  pose proof (chat_lists_filtered_separately
                (scripted (inr page_hello) recs_blank_first)
                question_1 tt tt tt tt [0] [] recs_blank_first []
                eq_refl eq_refl eq_refl Hs) as H.
  cbv zeta in H. destruct H as (Hb & Hu & _).
  split; [exact Hb | exact Hu].
Defined.

(** C6 as the specification words it fails: the first record's body is
    white space only and is dropped from the context, yet its url stays
    in the url list of the user message; the url list sent is not the list
    of the urls of the records whose body is retained. *)
Lemma chat_url_list_counterexample :
  js_filter trim_nonempty (map m_body recs_blank_first) = Normal [JString (lit "x")]
  /\ urls_of_retained_records recs_blank_first = [JString url_b]
  /\ In (EvCall
           (ChatCompletionsCreate "gpt-3.5-turbo"
              [(RoleSystem, system_content);
               (RoleUser,
                user_content question_1 [JString url_a; JString url_b]
                  [JString (lit "x")])]))
        (trace (run (scripted (inr page_hello) recs_blank_first)
                  (chat question_1) tt))
  /\ [JString url_a; JString url_b] <> urls_of_retained_records recs_blank_first.
Proof.
  split; [reflexivity|]. split; [reflexivity|]. split.
  - vm_compute. tauto.
  - vm_compute. discriminate.
Qed.

Lemma chat_throws_on_missing_field_witness :
  Exists (fun m => m_body m = JNull \/ m_body m = JUndefined
                   \/ m_url m = JNull \/ m_url m = JUndefined) recs_null_body
  /\ result (run (scripted (inr page_hello) recs_null_body) (chat question_1) tt)
     = Abrupt TypeError.
Proof.
  assert (Exists (fun m => m_body m = JNull \/ m_body m = JUndefined
                           \/ m_url m = JNull \/ m_url m = JUndefined)
            recs_null_body) as Hex.
  { constructor. left. reflexivity. }
  split; [exact Hex|].
  exact (proj1 (proj2 (proj2 (proj2
    (chat_throws_on_missing_field (scripted (inr page_hello) recs_null_body)
       question_1 tt tt tt tt [0] [] recs_null_body []
       eq_refl eq_refl eq_refl))) Hex)).
Defined.

(** ** The whole pipeline on a small page *)

(** Ingesting a page whose body is ["Hello"] into an empty store adds the
    five one-code-unit chunks, under the ids [url_chunk_0 .. url_chunk_4].
    The [head] of each record is [undefined]: [ingest] passes the page's
    head under the key [metaData], which [addToVectorDB] does not read. *)
Example ingest_Hello :
  let o := run (db_with (inr page_hello)) (ingest url_a) (∅, tt) in
  result o = Normal tt
  /\ size (fst (world o)) = 5%nat
  /\ Forall (fun i => is_Some (fst (world o) !! uniqueId url_a i)) [0; 1; 2; 3; 4]%N
  /\ fst (world o) !! uniqueId url_a 1
     = Some {| r_embedding := [0];
               r_meta := Meta (JString url_a) (JString (lit "e")) JUndefined
                           (JNumber 1) |}.
Proof.
  vm_compute. split; [reflexivity|]. split; [reflexivity|].
  split; [|reflexivity]. repeat constructor; by eexists.
Qed.

(** * Further properties of the code *)

(** ** The chunker *)

Lemma splitIntoChunks_length_le (text : jsstr) (count : Z) chunks :
  0 < count -> splitIntoChunks text count = Normal chunks ->
  Z.of_nat (length chunks) <= count
  /\ Z.of_nat (length chunks) <= js_length text.
Proof.
  intros Hcount Hsplit. destruct text as [|c text].
  - unfold splitIntoChunks in Hsplit.
    destruct (Z.leb_spec count 0); [lia|]. simpl in Hsplit.
    injection Hsplit as <-. unfold js_length. simpl. lia.
  - destruct (splitIntoChunks_nth (c :: text) count)
      as (chunks' & Hs & Hl & Hsize & _); [done|done|].
    rewrite Hsplit in Hs. injection Hs as <-.
    set (len := js_length (c :: text)) in *.
    set (size := Math_ceil_div len count) in *.
    pose proof (Math_ceil_div_spec len count Hcount) as H1. fold size in H1.
    pose proof (Math_ceil_div_spec len size ltac:(lia)) as H2.
    rewrite Hl. split; nia.
Qed.

Section ChunkerMore.

Implicit Types (text : jsstr) (chunks : list jsstr).

(** X1. [splitIntoChunks] throws exactly when the count is not positive, and
    then with its own error; otherwise it returns. *)
Theorem splitIntoChunks_throws_iff text (numChunks : Z) :
  (numChunks <= 0 ->
   splitIntoChunks text numChunks
   = Abrupt (JsError "Number of chunks must be greater than zero"))
  /\ (0 < numChunks -> exists chunks, splitIntoChunks text numChunks = Normal chunks)
  /\ ((exists e, splitIntoChunks text numChunks = Abrupt e) <-> numChunks <= 0).
Proof.
  assert (Hpos : 0 < numChunks ->
                 exists chunks, splitIntoChunks text numChunks = Normal chunks).
  { intros Hn. destruct text as [|c text].
    - exists []. unfold splitIntoChunks. by destruct (Z.leb_spec numChunks 0); [lia|].
    - destruct (splitIntoChunks_pieces (c :: text) numChunks) as [_ ->]; [done|done|].
      by eexists. }
  assert (Hneg : numChunks <= 0 ->
                 splitIntoChunks text numChunks
                 = Abrupt (JsError "Number of chunks must be greater than zero")).
  { intros Hn. unfold splitIntoChunks. by destruct (Z.leb_spec numChunks 0); [|lia]. }
  split; [done|]. split; [done|]. split.
  - intros [e He]. destruct (Z_le_gt_dec numChunks 0) as [|Hgt]; [done|].
    destruct Hpos as [chunks Hc]; [lia|]. congruence.
  - intros Hn. eexists. by apply Hneg.
Qed.

Lemma splitIntoChunks_throws_iff_witness :
  (-1 <= 0
   /\ splitIntoChunks (lit "Hello") (-1)
      = Abrupt (JsError "Number of chunks must be greater than zero"))
  /\ (0 < 3 /\ exists chunks, splitIntoChunks (lit "Hello") 3 = Normal chunks).
Proof.
  destruct (splitIntoChunks_throws_iff (lit "Hello") (-1)) as (Hneg & _ & _).
  destruct (splitIntoChunks_throws_iff (lit "Hello") 3) as (_ & Hpos & _).
  split; (split; [done|]); [apply Hneg | apply Hpos]; done.
Defined.

(** X2. The number of chunks never exceeds the count asked for. *)
Theorem splitIntoChunks_at_most_count text (count : Z) :
  0 < count ->
  exists chunks,
    splitIntoChunks text count = Normal chunks
    /\ Z.of_nat (length chunks) <= count
    /\ Z.of_nat (length chunks) <= js_length text.
Proof.
  intros Hcount. destruct text as [|c text].
  - exists []. split; [|simpl; unfold js_length; simpl; lia].
    unfold splitIntoChunks. by destruct (Z.leb_spec count 0); [lia|].
  - destruct (splitIntoChunks_nth (c :: text) count)
      as (chunks & Hs & Hl & Hsize & _); [done|done|].
    exists chunks. split; [done|].
    set (len := js_length (c :: text)) in *.
    set (size := Math_ceil_div len count) in *.
    pose proof (Math_ceil_div_spec len count Hcount) as H1. fold size in H1.
    pose proof (Math_ceil_div_spec len size ltac:(lia)) as H2.
    rewrite Hl. split; nia.
Qed.

Lemma splitIntoChunks_at_most_count_witness :
  0 < 2 /\
  exists chunks,
    splitIntoChunks (lit "Hello") 2 = Normal chunks
    /\ Z.of_nat (length chunks) <= 2.
Proof.
  split; [done|].
  destruct (splitIntoChunks_at_most_count (lit "Hello") 2) as (chunks & Hs & Hl & _);
    [done|].
  exists chunks. split; [exact Hs | exact Hl].
Defined.

(** X3. When the count divides the length of a non-empty text, there are
    exactly [count] chunks and all have the same length. *)
Theorem splitIntoChunks_even text (count q : Z) :
  0 < count -> 0 < q -> js_length text = count * q ->
  exists chunks,
    splitIntoChunks text count = Normal chunks
    /\ Z.of_nat (length chunks) = count
    /\ Forall (fun c => js_length c = q) chunks.
Proof.
  intros Hcount Hq Hlen.
  assert (text <> []) as Hne.
  { intros ->. unfold js_length in Hlen. simpl in Hlen. nia. }
  destruct (splitIntoChunks_nth text count Hne Hcount)
    as (chunks & Hs & Hl & Hsize & Hk).
  set (size := Math_ceil_div (js_length text) count) in *.
  pose proof (Math_ceil_div_spec (js_length text) count Hcount) as H1.
  fold size in H1.
  assert (size = q) as Hsq by nia.
  pose proof (Math_ceil_div_spec (js_length text) size ltac:(lia)) as H2.
  assert (Math_ceil_div (js_length text) size = count) as Hcnt by nia.
  exists chunks. split; [done|]. split; [lia|].
  apply Forall_forall. intros c Hc.
  apply list_elem_of_lookup in Hc as [k Hc].
  pose proof (lookup_lt_Some _ _ _ Hc) as Hklt.
  destruct (Hk k Hklt) as (Hc' & _ & Hmin & _).
  rewrite Hc' in Hc. injection Hc as <-. rewrite Hmin. nia.
Qed.

Lemma splitIntoChunks_even_witness :
  0 < 3 /\ 0 < 2 /\ js_length (lit "abcdef") = 3 * 2 /\
  exists chunks,
    splitIntoChunks (lit "abcdef") 3 = Normal chunks
    /\ Z.of_nat (length chunks) = 3.
Proof.
  split; [done|]. split; [done|]. split; [done|].
  destruct (splitIntoChunks_even (lit "abcdef") 3 2) as (chunks & Hs & Hl & _);
    [done|done|done|].
  exists chunks. split; [exact Hs | exact Hl].
Defined.

(** X4. Every chunk but the last has exactly [ceil (len / count)] code units;
    the last one has at most that many. *)
Theorem splitIntoChunks_full_but_last text (count : Z) :
  0 < count ->
  let size := Math_ceil_div (js_length text) count in
  exists chunks,
    splitIntoChunks text count = Normal chunks
    /\ (forall (k : nat) c,
          chunks !! k = Some c -> (S k < length chunks)%nat -> js_length c = size)
    /\ Forall (fun c => js_length c <= size) chunks.
Proof.
  intros Hcount size. destruct text as [|c0 text].
  - exists []. split; [|split; [done | constructor]].
    unfold splitIntoChunks. by destruct (Z.leb_spec count 0); [lia|].
  - destruct (splitIntoChunks_nth (c0 :: text) count)
      as (chunks & Hs & Hl & Hsize & Hk); [done|done|].
    fold size in Hl, Hsize, Hk.
    pose proof (Math_ceil_div_spec (js_length (c0 :: text)) size ltac:(lia)) as H2.
    exists chunks. split; [done|]. split.
    + intros k c Hc Hlt.
      destruct (Hk k (lookup_lt_Some _ _ _ Hc)) as (Hc' & _ & Hmin & _).
      rewrite Hc' in Hc. injection Hc as <-. rewrite Hmin. nia.
    + apply Forall_forall. intros c Hc.
      apply list_elem_of_lookup in Hc as [k Hc].
      destruct (Hk k (lookup_lt_Some _ _ _ Hc)) as (Hc' & _ & Hmin & _).
      rewrite Hc' in Hc. injection Hc as <-. rewrite Hmin. lia.
Qed.

Lemma splitIntoChunks_full_but_last_witness :
  0 < 2 /\
  exists chunks,
    splitIntoChunks (lit "Hello") 2 = Normal chunks
    /\ Forall (fun c => js_length c <= 3) chunks.
Proof.
  split; [done|].
  destruct (splitIntoChunks_full_but_last (lit "Hello") 2) as (chunks & Hs & _ & Hl);
    [done|].
  exists chunks. split; [exact Hs | exact Hl].
Defined.

End ChunkerMore.

(** ** The web fetcher: [scrapeWebpage] *)

Lemma elem_of_set_add (x y : jsstr) (s : list jsstr) :
  y ∈ set_add x s <-> y = x \/ y ∈ s.
Proof.
  unfold set_add. case_bool_decide as Hx.
  - split; [by right | intros [->|H]; done].
  - rewrite elem_of_app, list_elem_of_singleton. tauto.
Qed.

Lemma NoDup_set_add (x : jsstr) (s : list jsstr) : NoDup s -> NoDup (set_add x s).
Proof.
  intros Hs. unfold set_add. case_bool_decide as Hx; [done|].
  apply NoDup_app. split; [done|]. split; [|apply NoDup_singleton].
  intros y Hy Hy'. apply list_elem_of_singleton in Hy'. by subst.
Qed.

(** ["https"] starts with ["http"]: the first test of the link check is
    covered by the second. *)
Lemma is_external_http (link : jsstr) :
  is_external link = startsWith link (lit "http").
Proof.
  unfold is_external.
  destruct (startsWith link (lit "https")) eqn:Hs; [|done].
  symmetry. apply startsWith_prefix. apply startsWith_prefix in Hs.
  etrans; [|exact Hs]. by exists [115%N].
Qed.

(** The anchors' loop, from any two sets: it throws at the first anchor
    without [href]; otherwise it adds every [href] other than ["/"] to the
    set its test selects, keeping both sets free of duplicates. *)
Lemma classify_links_spec (hrefs : list (option jsstr)) :
  forall internal external,
    (None ∈ hrefs -> classify_links hrefs internal external = Abrupt TypeError)
    /\ (None ∉ hrefs ->
        exists internal' external',
          classify_links hrefs internal external = Normal (internal', external')
          /\ (forall l, l ∈ internal' <->
                l ∈ internal
                \/ (Some l ∈ hrefs /\ l <> lit "/" /\ is_external l = false))
          /\ (forall l, l ∈ external' <->
                l ∈ external
                \/ (Some l ∈ hrefs /\ l <> lit "/" /\ is_external l = true))
          /\ (NoDup internal -> NoDup internal')
          /\ (NoDup external -> NoDup external')).
Proof.
  induction hrefs as [|link hrefs IH]; intros internal external.
  - split; [by intros ?%elem_of_nil|]. intros _.
    exists internal, external. split; [done|].
    split; [|split; [|done]]; intros l; rewrite elem_of_nil; tauto.
  - cbn [classify_links]. destruct link as [l0|].
    + case_bool_decide as Hslash.
      * injection Hslash as ->.
        destruct (IH internal external) as [IHt IHn]. split.
        -- intros [Hc|Hin]%elem_of_cons; [done | by apply IHt].
        -- intros Hnot. destruct IHn as (i' & e' & Hr & Hi & He & Hdi & Hde).
           { intros Hin. apply Hnot. by right. }
           exists i', e'. split; [done|]. split; [|split; [|done]].
           ++ intros l. rewrite Hi, elem_of_cons. split; [tauto|].
              intros [?|([[= ->]|?] & ? & ?)]; tauto.
           ++ intros l. rewrite He, elem_of_cons. split; [tauto|].
              intros [?|([[= ->]|?] & ? & ?)]; tauto.
      * assert (l0 <> lit "/") as Hne by congruence.
        fold (is_external l0). destruct (is_external l0) eqn:Hext.
        -- destruct (IH internal (set_add l0 external)) as [IHt IHn]. split.
           ++ intros [Hc|Hin]%elem_of_cons; [done | by apply IHt].
           ++ intros Hnot. destruct IHn as (i' & e' & Hr & Hi & He & Hdi & Hde).
              { intros Hin. apply Hnot. by right. }
              exists i', e'. split; [done|]. split; [|split; [|split; [done|]]].
              ** intros l. rewrite Hi, elem_of_cons. split; [tauto|].
                 intros [?|([[= ->]|?] & ? & ?)]; [tauto|congruence|tauto].
              ** intros l. rewrite He, elem_of_set_add, elem_of_cons. split.
                 --- intros [[->|?]|?]; [right; split; [by left|done] | tauto | tauto].
                 --- intros [?|([[= ->]|?] & ? & ?)]; tauto.
              ** intros Hd. by apply Hde, NoDup_set_add.
        -- destruct (IH (set_add l0 internal) external) as [IHt IHn]. split.
           ++ intros [Hc|Hin]%elem_of_cons; [done | by apply IHt].
           ++ intros Hnot. destruct IHn as (i' & e' & Hr & Hi & He & Hdi & Hde).
              { intros Hin. apply Hnot. by right. }
              exists i', e'. split; [done|]. split; [|split; [|split; [|done]]].
              ** intros l. rewrite Hi, elem_of_set_add, elem_of_cons. split.
                 --- intros [[->|?]|?]; [right; split; [by left|done] | tauto | tauto].
                 --- intros [?|([[= ->]|?] & ? & ?)]; tauto.
              ** intros l. rewrite He, elem_of_cons. split; [tauto|].
                 intros [?|([[= ->]|?] & ? & ?)]; [tauto|congruence|tauto].
              ** intros Hd. by apply Hdi, NoDup_set_add.
    + split; [done|]. intros Hnot. exfalso. apply Hnot. by left.
Qed.

Section Scrape.

Context {W : Type} (h : handler W).
Variables (url : jsstr) (w w' : W) (data : page).

(** The request resolves with the page [data]. *)
Hypothesis Hget : h (AxiosGet url) w = (inr data, w').

(** X5. When every anchor has an [href], [scrapeWebpage] makes its one call
    and returns the head and body of the page with two link lists: the
    external one holds exactly the hrefs starting with ["http"], the
    internal one exactly the others, the bare ["/"] being left out of
    both; neither list repeats a link, and no link is in both. *)
Theorem scrapeWebpage_links :
  None ∉ p_hrefs data ->
  exists r,
    run h (scrapeWebpage url) w = Outcome (Normal r) w' [EvCall (AxiosGet url)]
    /\ metaData r = p_head data
    /\ body r = p_body data
    /\ (forall l, l ∈ externalLinks r <->
          Some l ∈ p_hrefs data /\ l <> lit "/" /\ startsWith l (lit "http") = true)
    /\ (forall l, l ∈ internalLinks r <->
          Some l ∈ p_hrefs data /\ l <> lit "/" /\ startsWith l (lit "http") = false)
    /\ NoDup (externalLinks r) /\ NoDup (internalLinks r)
    /\ (forall l, l ∈ internalLinks r -> l ∉ externalLinks r).
Proof.
  intros Hall.
  destruct (classify_links_spec (p_hrefs data) [] []) as [_ Hn].
  destruct (Hn Hall) as (i' & e' & Hr & Hi & He & Hdi & Hde).
  eexists. unfold scrapeWebpage. cbn [bind await run]. rewrite Hget.
  cbn [bind await run]. rewrite Hr. cbn [call bind run emit result world trace fst snd].
  split; [reflexivity|]. cbn [metaData body internalLinks externalLinks].
  assert (Hext : forall l, l ∈ e' <->
            Some l ∈ p_hrefs data /\ l <> lit "/" /\ startsWith l (lit "http") = true).
  { intros l. rewrite He, elem_of_nil, <- is_external_http. tauto. }
  assert (Hint : forall l, l ∈ i' <->
            Some l ∈ p_hrefs data /\ l <> lit "/" /\ startsWith l (lit "http") = false).
  { intros l. rewrite Hi, elem_of_nil, <- is_external_http. tauto. }
  split; [done|]. split; [done|]. split; [done|]. split; [done|].
  split; [apply Hde, NoDup_nil_2|]. split; [apply Hdi, NoDup_nil_2|].
  intros l Hl Hl'. apply Hint in Hl as (_ & _ & Hf). apply Hext in Hl' as (_ & _ & Ht).
  congruence.
Qed.

(** X6. An anchor without [href] makes [scrapeWebpage] throw a [TypeError]
    ([link.startsWith] on [undefined]), whatever the other anchors are;
    and that is the only way it throws once the request has resolved. *)
Theorem scrapeWebpage_missing_href :
  (None ∈ p_hrefs data ->
   run h (scrapeWebpage url) w = Outcome (Abrupt TypeError) w' [EvCall (AxiosGet url)])
  /\ ((exists e, result (run h (scrapeWebpage url) w) = Abrupt e)
      <-> None ∈ p_hrefs data).
Proof.
  assert (Hthrow : None ∈ p_hrefs data ->
            run h (scrapeWebpage url) w
            = Outcome (Abrupt TypeError) w' [EvCall (AxiosGet url)]).
  { intros Hin. destruct (classify_links_spec (p_hrefs data) [] []) as [Ht _].
    unfold scrapeWebpage. cbn [bind await run]. rewrite Hget.
    cbn [bind await run]. by rewrite (Ht Hin). }
  split; [done|]. split.
  - intros [e He]. destruct (decide (None ∈ p_hrefs data)) as [|Hnot]; [done|].
    destruct (classify_links_spec (p_hrefs data) [] []) as [_ Hn].
    destruct (Hn Hnot) as (i' & e' & Hr & _).
    revert He. unfold scrapeWebpage. cbn [bind await run]. rewrite Hget.
    cbn [bind await run]. by rewrite Hr.
  - intros Hin. exists TypeError. by rewrite Hthrow.
Qed.

End Scrape.

(** A rejected request is rethrown by [scrapeWebpage] as it is. *)
Lemma scrapeWebpage_rejected {W} (h : handler W) (url : jsstr) (w w' : W) e :
  h (AxiosGet url) w = (inl e, w') ->
  run h (scrapeWebpage url) w = Outcome (Abrupt e) w' [EvCall (AxiosGet url)].
Proof.
  intros Hget. unfold scrapeWebpage. cbn [bind await run]. by rewrite Hget.
Qed.

(** ** Lookup, purge and upsert on a store that keeps its contract *)

Lemma List_filter_nil {A} (f : A -> bool) (l : list A) :
  (forall a, a ∈ l -> f a = false) -> List.filter f l = [].
Proof.
  induction l as [|a l IH]; intros H; [done|]. simpl.
  rewrite (H a) by (by left). apply IH. intros b Hb. apply H. by right.
Qed.

Section StoreMore.

Context {X : Type}.
Variable others : forall r : request, X -> (exn + response r) * X.
Variable on_duplicate : duplicate_policy.
Variable nearest : Z -> embedding -> gmap jsstr record -> list meta.

Local Abbreviation db := (chroma others on_duplicate nearest).

Implicit Types (s : gmap jsstr record) (x : X) (url id : jsstr).

Lemma run_isUrlProcessed url s x :
  run db (isUrlProcessed url) (s, x)
  = Outcome
      (Normal (existsb (fun id => startsWith id url) (map fst (map_to_list s))))
      (s, x)
      [EvCall (GetOrCreateCollection WEB_COLLECTION); EvCall (CollectionGet None)].
Proof. reflexivity. Qed.

Lemma existsb_keys url s :
  existsb (fun id => startsWith id url) (map fst (map_to_list s)) = true
  <-> exists id r, s !! id = Some r /\ url `prefix_of` id.
Proof.
  rewrite existsb_exists. split.
  - intros (id & Hin & Hsw). apply list_elem_of_In, elem_of_keys in Hin as [r Hr].
    exists id, r. split; [done|]. by apply startsWith_prefix.
  - intros (id & r & Hr & Hp). exists id. split; [|by apply startsWith_prefix].
    apply list_elem_of_In, elem_of_keys. by exists r.
Qed.

(** X7. [isUrlProcessed url] answers [true] exactly when the store holds a
    record whose id starts with [url]; it reads the store and leaves it as
    it is. *)
Theorem isUrlProcessed_iff url s x :
  exists b,
    run db (isUrlProcessed url) (s, x)
    = Outcome (Normal b) (s, x)
        [EvCall (GetOrCreateCollection WEB_COLLECTION); EvCall (CollectionGet None)]
    /\ (b = true <-> exists id r, s !! id = Some r /\ url `prefix_of` id).
Proof.
  eexists. split; [apply run_isUrlProcessed | apply existsb_keys].
Qed.

(** X8. Right after the purge of [url], [isUrlProcessed url] answers [false];
    right after an upsert for [url], whether it inserted or skipped, it
    answers [true]. *)
Theorem isUrlProcessed_after url (entry : vector_entry) (chunkIndex : N) s x :
  result (run db (deleteEmbeddingsForUrl url;; isUrlProcessed url) (s, x))
  = Normal false
  /\ (e_url entry = url ->
      result (run db (addToVectorDB entry chunkIndex;; isUrlProcessed url) (s, x))
      = Normal true).
Proof.
  split.
  - rewrite run_bind, run_deleteEmbeddingsForUrl. unfold and_then.
    cbn [result world trace]. rewrite run_isUrlProcessed. cbn [result]. f_equal.
    apply not_true_is_false. intros (id & r & Hr & Hp)%existsb_keys.
    rewrite lookup_purged in Hr. apply startsWith_prefix in Hp. by rewrite Hp in Hr.
  - intros <-. rewrite run_bind, run_addToVectorDB. unfold and_then.
    destruct (s !! uniqueId (e_url entry) chunkIndex) as [r|] eqn:Hs;
      cbn [result world trace]; rewrite run_isUrlProcessed; cbn [result]; f_equal;
      apply existsb_keys.
    + exists (uniqueId (e_url entry) chunkIndex), r. split; [done|]. by eexists.
    + eexists (uniqueId (e_url entry) chunkIndex), _.
      split; [apply lookup_insert_eq|]. by eexists.
Qed.

(** X9. The prefix test does not tell a url from a longer one that starts
    with it: purging [url1] also deletes every chunk of a [url2] that has
    [url1] as a prefix, and [isUrlProcessed url1] answers [true] on a
    store that holds only chunks of [url2]. *)
Theorem purge_reaches_longer_urls url1 url2 (i : N) s x :
  url1 `prefix_of` url2 ->
  fst (world (run db (deleteEmbeddingsForUrl url1) (s, x))) !! uniqueId url2 i = None
  /\ (is_Some (s !! uniqueId url2 i) ->
      result (run db (isUrlProcessed url1) (s, x)) = Normal true).
Proof.
  intros Hp.
  assert (url1 `prefix_of` uniqueId url2 i) as Hp'.
  { etrans; [exact Hp|]. by eexists. }
  split.
  - rewrite run_deleteEmbeddingsForUrl. cbn [world fst].
    rewrite lookup_purged. apply startsWith_prefix in Hp'. by rewrite Hp'.
  - intros [r Hr]. rewrite run_isUrlProcessed. cbn [result]. f_equal.
    apply existsb_keys. eauto.
Qed.

(** X10. Purging the empty url, the default of [ingest], empties the store:
    every id starts with the empty string. *)
Theorem purge_empty_url s x :
  world (run db (deleteEmbeddingsForUrl []) (s, x)) = (∅, x).
Proof.
  rewrite run_deleteEmbeddingsForUrl. cbn [world]. f_equal.
  apply map_eq. intros id. rewrite lookup_purged, lookup_empty.
  by destruct id.
Qed.

(** X11. A second purge of the same url finds nothing to delete: it makes no
    [delete] call and leaves the store as the first purge left it. *)
Theorem purge_twice url s x :
  let o := run db (deleteEmbeddingsForUrl url) (s, x) in
  run db (deleteEmbeddingsForUrl url) (world o)
  = Outcome (Normal tt) (world o)
      [EvCall (GetOrCreateCollection WEB_COLLECTION); EvCall (CollectionGet None)].
Proof.
  intros o. subst o. rewrite run_deleteEmbeddingsForUrl. cbn [world].
  rewrite run_deleteEmbeddingsForUrl.
  assert (List.filter (fun id => startsWith id url)
            (map fst (map_to_list (purged url s))) = []) as Hnil.
  { apply List_filter_nil. intros id [r Hr]%elem_of_keys.
    rewrite lookup_purged in Hr. by destruct (startsWith id url). }
  assert (purged url (purged url s) = purged url s) as ->.
  { apply map_eq. intros id. rewrite !lookup_purged.
    by destruct (startsWith id url). }
  unfold purge_trace. by rewrite Hnil.
Qed.

(** X12. A second upsert of the same entry is skipped: it reports "already
    exists", makes no [add] call and leaves the store as the first upsert
    left it. *)
Theorem addToVectorDB_twice (entry : vector_entry) (chunkIndex : N) s x :
  let o := run db (addToVectorDB entry chunkIndex) (s, x) in
  let id := uniqueId (e_url entry) chunkIndex in
  run db (addToVectorDB entry chunkIndex) (world o)
  = Outcome (Normal tt) (world o)
      [EvCall (GetOrCreateCollection WEB_COLLECTION);
       EvCall (CollectionGet (Some [id]));
       EvLog (LogAlreadyExists id)].
Proof.
  intros o id. subst o. rewrite (run_addToVectorDB _ _ _ entry chunkIndex s x).
  fold id. destruct (s !! id) as [r|] eqn:Hs; cbn [world].
  - rewrite run_addToVectorDB. fold id. by rewrite Hs.
  - rewrite run_addToVectorDB. fold id. by rewrite lookup_insert_eq.
Qed.

(** X13. An upsert never removes or changes a record that is in the store. *)
Theorem addToVectorDB_keeps_records (entry : vector_entry) (chunkIndex : N) s x id r :
  s !! id = Some r ->
  fst (world (run db (addToVectorDB entry chunkIndex) (s, x))) !! id = Some r.
Proof.
  intros Hr. rewrite run_addToVectorDB.
  destruct (s !! uniqueId (e_url entry) chunkIndex) as [r'|] eqn:Hs; cbn [world fst].
  - done.
  - rewrite lookup_insert_ne; [done|]. congruence.
Qed.

End StoreMore.

(** ** The ingestion orchestrator on a store that keeps its contract *)

Section IngestMore.

Context {X : Type}.
Variable others : forall r : request, X -> (exn + response r) * X.
Variable on_duplicate : duplicate_policy.
Variable nearest : Z -> embedding -> gmap jsstr record -> list meta.

Local Abbreviation db := (chroma others on_duplicate nearest).

Implicit Types (s : gmap jsstr record) (x : X) (url id : jsstr).

Lemma run_generateVectorEmbeddings text s x :
  run db (generateVectorEmbeddings text) (s, x)
  = match others (EmbeddingsCreate "text-embedding-3-small" text) x with
    | (inr (e :: _), x') =>
        Outcome (Normal e) (s, x')
          [EvCall (EmbeddingsCreate "text-embedding-3-small" text)]
    | (inr [], x') =>
        Outcome (Abrupt TypeError) (s, x')
          [EvCall (EmbeddingsCreate "text-embedding-3-small" text)]
    | (inl err, x') =>
        Outcome (Abrupt err) (s, x')
          [EvCall (EmbeddingsCreate "text-embedding-3-small" text)]
    end.
Proof.
  unfold generateVectorEmbeddings. simpl.
  by destruct (others _ x) as [[err|[|e data]] x'].
Qed.

Lemma embeddings_of_length x chunks es x' err :
  embeddings_of others x chunks = (es, x', err) ->
  (length es <= length chunks)%nat
  /\ (err = None -> length es = length chunks).
Proof.
  revert x es x' err.
  induction chunks as [|c rest IH]; intros x es x' err Hemb; simpl in Hemb.
  - by injection Hemb as <- <- <-.
  - destruct (others _ x) as [[e0|[|e data]] x1].
    + injection Hemb as <- <- <-. simpl. split; [lia | done].
    + injection Hemb as <- <- <-. simpl. split; [lia | done].
    + destruct (embeddings_of others x1 rest) as [[es1 x2] err1] eqn:Hrest.
      injection Hemb as <- <- <-. destruct (IH _ _ _ _ Hrest) as [Hle Heq].
      simpl. split; [lia|]. intros H. by rewrite Heq.
Qed.

(** The loop of [ingest] from index [i] on: it stops at the first chunk
    whose embedding fails and throws that error; the chunks before it are
    upserted. A record already in the store is never changed; a chunk
    whose id is free gets its record; no other id is touched. *)
Lemma run_ingest_chunks url md chunks :
  forall (i : N) s x es x' err,
    embeddings_of others x chunks = (es, x', err) ->
    let o := run db (ingest_chunks url md chunks i) (s, x) in
    result o = match err with None => Normal tt | Some e => Abrupt e end
    /\ snd (world o) = x'
    /\ (forall id r, s !! id = Some r -> fst (world o) !! id = Some r)
    /\ (forall (j : nat) e c,
          es !! j = Some e -> chunks !! j = Some c ->
          s !! uniqueId url (i + N.of_nat j) = None ->
          fst (world o) !! uniqueId url (i + N.of_nat j)
          = Some (chunk_record url c e (i + N.of_nat j)))
    /\ (forall id,
          (forall j : nat, (j < length es)%nat -> id <> uniqueId url (i + N.of_nat j)) ->
          fst (world o) !! id = s !! id)
    /\ Forall (fun ev => ~ is_fetch ev) (trace o).
Proof.
  induction chunks as [|c rest IH]; intros i s x es x' err Hemb o.
  - subst o. simpl in Hemb. injection Hemb as <- <- <-. simpl.
    repeat split; try done; intros j e c Hj; by rewrite lookup_nil in Hj.
  - simpl in Hemb.
    destruct (others (EmbeddingsCreate "text-embedding-3-small" c) x)
      as [[e0|[|e data]] x1] eqn:Hoth.
    + assert (o = Outcome (Abrupt e0) (s, x1)
                    [EvCall (EmbeddingsCreate "text-embedding-3-small" c)]) as ->.
      { subst o. by rewrite ingest_chunks_cons, run_bind,
          run_generateVectorEmbeddings, Hoth. }
      injection Hemb as <- <- <-. cbn [result world trace fst snd].
      repeat split; try done;
        first [ intros j e c' Hj; by rewrite lookup_nil in Hj
              | repeat constructor; simpl; tauto ].
    + assert (o = Outcome (Abrupt TypeError) (s, x1)
                    [EvCall (EmbeddingsCreate "text-embedding-3-small" c)]) as ->.
      { subst o. by rewrite ingest_chunks_cons, run_bind,
          run_generateVectorEmbeddings, Hoth. }
      injection Hemb as <- <- <-. cbn [result world trace fst snd].
      repeat split; try done;
        first [ intros j e c' Hj; by rewrite lookup_nil in Hj
              | repeat constructor; simpl; tauto ].
    + destruct (embeddings_of others x1 rest) as [[es1 x2] err1] eqn:Hrest.
      injection Hemb as <- <- <-.
      set (id0 := uniqueId url i).
      set (entry := {| e_embedding := e; e_url := url; e_body := Some c;
                       e_head := JUndefined; e_metaData := md |}).
      assert (exists s1 t1,
                 run db (addToVectorDB entry i) (s, x1)
                 = Outcome (Normal tt) (s1, x1) t1
                 /\ Forall (fun ev => ~ is_fetch ev) t1
                 /\ (forall id r, s !! id = Some r -> s1 !! id = Some r)
                 /\ (s !! id0 = None -> s1 !! id0 = Some (chunk_record url c e i))
                 /\ (forall id, id <> id0 -> s1 !! id = s !! id))
        as (s1 & t1 & Hadd & Ht1 & Hkeep & Hnew & Hother).
      { rewrite run_addToVectorDB. cbn [e_url entry]. fold id0.
        destruct (s !! id0) as [r0|] eqn:Hs0.
        - exists s. eexists. split; [reflexivity|].
          split; [repeat constructor; simpl; tauto|]. by repeat split.
        - eexists. eexists. split; [reflexivity|].
          split; [repeat constructor; simpl; tauto|]. split; [|split].
          + intros id r Hr. rewrite lookup_insert_ne; [done|]. congruence.
          + intros _. by rewrite lookup_insert_eq.
          + intros id Hne. by rewrite lookup_insert_ne. }
      set (o2 := run db (ingest_chunks url md rest (i + 1)%N) (s1, x1)).
      assert (o = Outcome (result o2) (world o2)
                    ([EvCall (EmbeddingsCreate "text-embedding-3-small" c)]
                     ++ t1 ++ trace o2)) as ->.
      { subst o. rewrite ingest_chunks_cons, run_bind,
          run_generateVectorEmbeddings, Hoth.
        unfold and_then at 1. cbn [result world trace].
        fold entry. rewrite run_bind, Hadd. unfold and_then.
        cbn [result world trace]. fold o2. by destruct (result o2). }
      destruct (IH (i + 1)%N s1 x1 es1 x2 err1 Hrest)
        as (Hres & Hx & Hk & Hj & Ho & Ht).
      fold o2 in Hres, Hx, Hk, Hj, Ho, Ht. cbn [result world trace].
      assert (Hidx : forall j : nat, (i + 1 + N.of_nat j = i + N.of_nat (S j))%N)
        by (intros; lia).
      split; [done|]. split; [done|].
      split; [intros id r Hr'; by apply Hk, Hkeep|].
      split; [|split].
      * intros [|j] e' c' He' Hc' Hfree; simpl in He', Hc'.
        -- injection He' as <-. injection Hc' as <-.
           rewrite N.add_0_r in *. by apply Hk, Hnew.
        -- rewrite <- Hidx in *. apply Hj; [done|done|].
           rewrite Hother; [done|].
           intros Heq. apply uniqueId_inj in Heq as [_ Heq]. lia.
      * intros id Hid. rewrite Ho.
        -- apply Hother. specialize (Hid 0%nat ltac:(simpl; lia)).
           by rewrite N.add_0_r in Hid.
        -- intros j Hlt. rewrite Hidx. apply Hid. simpl. lia.
      * constructor; [simpl; tauto|]. apply Forall_app. by split.
Qed.

Lemma run_index_scraped url (scraped : scrape_result) b chunks w :
  body scraped = Some b -> b <> [] ->
  splitIntoChunks b 100 = Normal chunks ->
  run db (index_scraped url scraped) w
  = emit (EvLog (LogSplit (length chunks)))
      (and_then
         (run db (ingest_chunks url (of_nullable (metaData scraped)) chunks 0%N) w)
         (fun _ w' => Outcome (Normal tt) w' [EvLog (LogIngestingSuccessful url)])).
Proof.
  intros Hb Hne Hsplit. unfold index_scraped. rewrite Hb.
  destruct b as [|c0 b']; [done|]. rewrite Hsplit. cbn [call bind console run].
  by rewrite run_bind.
Qed.

(** The whole of [ingest] when the page comes with a body: the purge,
    then the records of the chunks embedded before the first failure. *)
Lemma run_ingest_body url s x (data : page) x1 b chunks es x2 err :
  others (AxiosGet url) x = (inr data, x1) ->
  None ∉ p_hrefs data ->
  p_body data = Some b -> b <> [] ->
  splitIntoChunks b 100 = Normal chunks ->
  embeddings_of others x1 chunks = (es, x2, err) ->
  let o := run db (ingest url) (s, x) in
  result o = Normal tt
  /\ snd (world o) = x2
  /\ (forall (j : nat) e c,
        es !! j = Some e -> chunks !! j = Some c ->
        fst (world o) !! uniqueId url (N.of_nat j)
        = Some (chunk_record url c e (N.of_nat j)))
  /\ (forall id,
        (forall j : nat, (j < length es)%nat -> id <> uniqueId url (N.of_nat j)) ->
        fst (world o) !! id = if startsWith id url then None else s !! id)
  /\ last (trace o)
     = Some (EvLog match err with
                   | None => LogIngestingSuccessful url
                   | Some e => ErrIngesting url e
                   end)
  /\ Forall (fun ev => ~ is_fetch ev)
       (drop (S (S (length (purge_trace url s)))) (trace o)).
Proof.
  intros Hget Hhref Hb Hne Hsplit Hemb o.
  destruct (classify_links_spec (p_hrefs data) [] []) as [_ Hn].
  destruct (Hn Hhref) as (i' & e' & Hlinks & _).
  set (md := of_nullable (p_head data)).
  destruct (run_ingest_chunks url md chunks 0%N (purged url s) x1 es x2 err Hemb)
    as (Hres & Hx & Hk & Hj & Ho & Ht).
  set (oc := run db (ingest_chunks url md chunks 0%N) (purged url s, x1)) in *.
  assert (o = Outcome (Normal tt) (world oc)
                ((EvLog (LogIngesting url) :: purge_trace url s
                  ++ [EvCall (AxiosGet url)])
                 ++ (EvLog (LogSplit (length chunks)) :: trace oc)
                 ++ [EvLog match err with
                           | None => LogIngestingSuccessful url
                           | Some e => ErrIngesting url e
                           end])) as ->.
  { set (scraped := {| metaData := p_head data; body := p_body data;
                       internalLinks := fst (i', e');
                       externalLinks := snd (i', e') |}).
    assert (run db (scrapeWebpage url) (purged url s, x)
            = Outcome (Normal scraped) (purged url s, x1) [EvCall (AxiosGet url)])
      as Hscrape by (by rewrite run_scrapeWebpage, Hget, Hlinks).
    pose proof (run_index_scraped url scraped b chunks (purged url s, x1)
                  Hb Hne Hsplit) as Hindex.
    cbn [metaData scraped] in Hindex. fold md oc in Hindex.
    subst o. unfold ingest. rewrite run_try_catch, run_ingest_try.
    unfold and_then at 1. cbn [result world trace].
    rewrite Hscrape. unfold and_then. cbn [result world trace].
    rewrite Hindex. unfold and_then, or_else, emit, ingest_catch.
    cbn [result world trace]. rewrite Hres.
    destruct err as [e|]; cbn [result world trace run console app];
      f_equal; f_equal; rewrite <- ?app_assoc; cbn [app];
      by rewrite ?app_nil_r, <- ?app_assoc. }
  cbn [result world trace].
  split; [done|]. split; [done|]. split; [|split; [|split]].
  - intros j e c He Hc. apply (Hj j e c He Hc).
    rewrite N.add_0_l, lookup_purged. unfold uniqueId. by rewrite startsWith_app.
  - intros id Hid. rewrite Ho, ?lookup_purged; [done|].
    intros j Hlt. rewrite N.add_0_l. by apply Hid.
  - by rewrite app_assoc, last_snoc.
  - assert (Hdrop : forall (pt rest : list event) a ev,
              drop (S (S (length pt))) (ev :: pt ++ a :: rest) = rest).
    { intros pt rest a ev. cbn [drop]. induction pt as [|? pt IHpt]; [done|apply IHpt]. }
    cbn [app]. rewrite <- !app_assoc. cbn [app]. rewrite Hdrop.
    constructor; [simpl; tauto|]. apply Forall_app. split; [done|].
    constructor; [simpl; tauto | constructor].
Qed.

Lemma embeddings_of_failed x chunks es x' e :
  embeddings_of others x chunks = (es, x', Some e) ->
  (length es < length chunks)%nat.
Proof.
  revert x es x'.
  induction chunks as [|c rest IH]; intros x es x' Hemb; simpl in Hemb.
  - by injection Hemb.
  - destruct (others _ x) as [[e0|[|e1 data]] x1].
    + injection Hemb as <- _ _. simpl. lia.
    + injection Hemb as <- _ _. simpl. lia.
    + destruct (embeddings_of others x1 rest) as [[es1 x2] err1] eqn:Hrest.
      injection Hemb as <- <- ->. apply IH in Hrest. simpl. lia.
Qed.

(** X14. When the page has a body, no anchor lacks its [href] and every chunk
    gets its embedding, [ingest] returns with one record per chunk of the
    body, at most 100 of them: the chunk of index [j] is stored under
    [uniqueId url j] with its embedding, its text as [body], its index,
    and [head] left [undefined]. Records whose id does not start with
    [url] are as they were, every other record that started with [url] is
    gone, and the last console line reports success. *)
Theorem ingest_stores_chunks url s x (data : page) x1 b chunks es x2 :
  others (AxiosGet url) x = (inr data, x1) ->
  None ∉ p_hrefs data ->
  p_body data = Some b -> b <> [] ->
  splitIntoChunks b 100 = Normal chunks ->
  embeddings_of others x1 chunks = (es, x2, None) ->
  let o := run db (ingest url) (s, x) in
  result o = Normal tt
  /\ (length chunks <= 100)%nat
  /\ (forall (j : nat) c,
        chunks !! j = Some c ->
        exists e,
          es !! j = Some e
          /\ fst (world o) !! uniqueId url (N.of_nat j)
             = Some {| r_embedding := e;
                       r_meta := {| m_url := JString url;
                                    m_body := JString c;
                                    m_head := JUndefined;
                                    m_chunkIndex := JNumber (Z.of_nat j) |} |})
  /\ (forall id,
        (forall j : nat, (j < length chunks)%nat -> id <> uniqueId url (N.of_nat j)) ->
        fst (world o) !! id = if startsWith id url then None else s !! id)
  /\ last (trace o) = Some (EvLog (LogIngestingSuccessful url)).
Proof.
  intros Hget Hhref Hb Hne Hsplit Hemb o.
  destruct (run_ingest_body url s x data x1 b chunks es x2 None
              Hget Hhref Hb Hne Hsplit Hemb) as (Hres & _ & Hj & Ho & Hlast & _).
  fold o in Hres, Hj, Ho, Hlast.
  destruct (embeddings_of_length _ _ _ _ _ Hemb) as [_ Hlen].
  specialize (Hlen eq_refl).
  pose proof (splitIntoChunks_length_le b 100 chunks ltac:(lia) Hsplit) as [Hle _].
  split; [done|]. split; [lia|]. split; [|split; [|done]].
  - intros j c Hc.
    destruct (lookup_lt_is_Some_2 es j) as [e He].
    { rewrite Hlen. by eapply lookup_lt_Some. }
    exists e. split; [done|]. rewrite (Hj j e c He Hc).
    unfold chunk_record. by rewrite nat_N_Z.
  - intros id Hid. apply Ho. intros j Hlt. apply Hid. by rewrite <- Hlen.
Qed.

(** X15. No rollback: when the embedding of some chunk fails, [ingest] stops
    there, reports the error and returns; the chunks embedded before the
    failure stay in the store, and no later chunk of [url] is stored. *)
Theorem ingest_keeps_committed_chunks url s x (data : page) x1 b chunks es x2 err :
  others (AxiosGet url) x = (inr data, x1) ->
  None ∉ p_hrefs data ->
  p_body data = Some b -> b <> [] ->
  splitIntoChunks b 100 = Normal chunks ->
  embeddings_of others x1 chunks = (es, x2, Some err) ->
  let o := run db (ingest url) (s, x) in
  result o = Normal tt
  /\ (length es < length chunks)%nat
  /\ (forall (j : nat) e c,
        es !! j = Some e -> chunks !! j = Some c ->
        fst (world o) !! uniqueId url (N.of_nat j)
        = Some (chunk_record url c e (N.of_nat j)))
  /\ (forall j : nat,
        (length es <= j)%nat -> fst (world o) !! uniqueId url (N.of_nat j) = None)
  /\ last (trace o) = Some (EvLog (ErrIngesting url err)).
Proof.
  intros Hget Hhref Hb Hne Hsplit Hemb o.
  destruct (run_ingest_body url s x data x1 b chunks es x2 (Some err)
              Hget Hhref Hb Hne Hsplit Hemb) as (Hres & _ & Hj & Ho & Hlast & _).
  fold o in Hres, Hj, Ho, Hlast.
  split; [done|]. split; [by eapply embeddings_of_failed|].
  split; [done|]. split; [|done].
  intros j Hle. rewrite Ho.
  - unfold uniqueId. by rewrite startsWith_app.
  - intros j' Hlt Heq. apply uniqueId_inj in Heq as [_ Heq]. lia.
Qed.

(** X16. Re-ingestion replaces: ingesting the same url twice, the page having
    the same body both times and all embeddings succeeding, leaves after
    the second call the same ids with the same metadata as after the
    first. *)
Theorem ingest_twice_same_records url s x (data data' : page) x1 x3 b chunks
    es es' x2 x4 :
  others (AxiosGet url) x = (inr data, x1) ->
  None ∉ p_hrefs data ->
  p_body data = Some b -> b <> [] ->
  splitIntoChunks b 100 = Normal chunks ->
  embeddings_of others x1 chunks = (es, x2, None) ->
  others (AxiosGet url) x2 = (inr data', x3) ->
  None ∉ p_hrefs data' ->
  p_body data' = Some b ->
  embeddings_of others x3 chunks = (es', x4, None) ->
  let o1 := run db (ingest url) (s, x) in
  let o2 := run db (ingest url) (world o1) in
  result o2 = Normal tt
  /\ forall id,
       r_meta <$> (fst (world o2) !! id) = r_meta <$> (fst (world o1) !! id).
Proof.
  intros Hget Hhref Hb Hne Hsplit Hemb Hget' Hhref' Hb' Hemb' o1 o2.
  destruct (run_ingest_body url s x data x1 b chunks es x2 None
              Hget Hhref Hb Hne Hsplit Hemb) as (_ & Hx & Hj & Ho & _).
  fold o1 in Hx, Hj, Ho.
  assert (world o1 = (fst (world o1), x2)) as Hw.
  { rewrite <- Hx. by destruct (world o1). }
  destruct (run_ingest_body url (fst (world o1)) x2 data' x3 b chunks es' x4 None
              Hget' Hhref' Hb' Hne Hsplit Hemb') as (Hres' & _ & Hj' & Ho' & _).
  rewrite <- Hw in Hres', Hj', Ho'. fold o2 in Hres', Hj', Ho'.
  split; [done|]. intros id.
  destruct (embeddings_of_length _ _ _ _ _ Hemb) as [_ Hlen].
  destruct (embeddings_of_length _ _ _ _ _ Hemb') as [_ Hlen'].
  specialize (Hlen eq_refl). specialize (Hlen' eq_refl).
  destruct (decide (id ∈ map (fun j : nat => uniqueId url (N.of_nat j))
                          (seq 0 (length chunks)))) as [Hin|Hnot].
  - apply list_elem_of_fmap in Hin as (j & -> & Hjin).
    apply elem_of_seq in Hjin as [_ Hlt]. simpl in Hlt.
    destruct (lookup_lt_is_Some_2 chunks j Hlt) as [c Hc].
    destruct (lookup_lt_is_Some_2 es j) as [e He]; [lia|].
    destruct (lookup_lt_is_Some_2 es' j) as [e' He']; [lia|].
    by rewrite (Hj j e c He Hc), (Hj' j e' c He' Hc).
  - assert (forall j : nat, (j < length chunks)%nat -> id <> uniqueId url (N.of_nat j))
      as Hfree.
    { intros j Hlt ->. apply Hnot. apply list_elem_of_fmap. exists j.
      split; [done|]. apply elem_of_seq. simpl. lia. }
    rewrite Ho' by (intros j Hlt; apply Hfree; lia).
    rewrite Ho by (intros j Hlt; apply Hfree; lia).
    by destruct (startsWith id url).
Qed.

End IngestMore.

(** ** The ingestion orchestrator against any collaborators *)

Lemma trace_deleteEmbeddingsForUrl_no_fetch {W} (h : handler W) url (w : W) :
  Forall (fun ev => ~ is_fetch ev) (trace (run h (deleteEmbeddingsForUrl url) w)).
Proof.
  unfold deleteEmbeddingsForUrl. cbn [bind await run].
  destruct (h (GetOrCreateCollection WEB_COLLECTION) w) as [[e|[]] w1];
    cbn [bind await run emit trace].
  { repeat constructor; simpl; tauto. }
  destruct (h (CollectionGet None) w1) as [[e|embeddings] w2];
    cbn [bind await run emit trace].
  { repeat constructor; simpl; tauto. }
  destruct (0 <? _); cbn [bind await run emit trace console].
  - destruct (h (CollectionDelete _) w2) as [[e|[]] w3];
      cbn [bind await run emit trace console]; repeat constructor; simpl; tauto.
  - repeat constructor; simpl; tauto.
Qed.

(** X17. When the purge fails, whatever the store call that failed, [ingest]
    reports the error and returns without fetching the page: nothing is
    embedded or added either. *)
Theorem ingest_stops_when_purge_fails {W} (h : handler W) url (w : W) e :
  result (run h (deleteEmbeddingsForUrl url) w) = Abrupt e ->
  run h (ingest url) w
  = Outcome (Normal tt) (world (run h (deleteEmbeddingsForUrl url) w))
      (EvLog (LogIngesting url)
       :: trace (run h (deleteEmbeddingsForUrl url) w)
       ++ [EvLog (ErrIngesting url e)])
  /\ Forall (fun ev => ~ is_fetch ev) (trace (run h (ingest url) w)).
Proof.
  intros Hfail.
  assert (run h (ingest url) w
          = Outcome (Normal tt) (world (run h (deleteEmbeddingsForUrl url) w))
              (EvLog (LogIngesting url)
               :: trace (run h (deleteEmbeddingsForUrl url) w)
               ++ [EvLog (ErrIngesting url e)])) as Hrun.
  { unfold ingest, ingest_try. rewrite run_try_catch.
    change (run h (console (LogIngesting url);; ?q) w)
      with (emit (EvLog (LogIngesting url)) (run h q w)).
    rewrite run_bind. unfold and_then. rewrite Hfail.
    unfold or_else, emit, ingest_catch. cbn [result world trace run console].
    reflexivity. }
  split; [done|]. rewrite Hrun. cbn [trace].
  constructor; [simpl; tauto|]. apply Forall_app. split.
  - apply trace_deleteEmbeddingsForUrl_no_fetch.
  - repeat constructor; simpl; tauto.
Qed.

(** ** The retrieval orchestrator against any collaborators *)

(** X18. On strings the filter predicate of [chat] keeps exactly those with a
    code unit that is not white space; the [!!e] test changes nothing. *)
Theorem js_filter_on_strings (l : list jsstr) :
  js_filter trim_nonempty (map JString l)
  = Normal (map JString (List.filter (fun s => negb (blank s)) l)).
Proof.
  induction l as [|s l IH]; [done|].
  cbn [map js_filter List.filter]. rewrite trim_nonempty_string, IH.
  by destruct (blank s).
Qed.

(** X19. [chat] catches nothing: when the embedding service, the store or the
    generative service rejects a call, [chat] throws that error at once,
    with no call after the rejected one and nothing logged. *)
Theorem chat_rethrows {W} (h : handler W) question (w w1 w2 w3 w4 : W)
    emb data recs more e :
  (h (EmbeddingsCreate "text-embedding-3-small" question) w = (inl e, w1) ->
   run h (chat question) w
   = Outcome (Abrupt e) w1
       [EvCall (EmbeddingsCreate "text-embedding-3-small" question)])
  /\ (h (EmbeddingsCreate "text-embedding-3-small" question) w
      = (inr (emb :: data), w1) ->
      h (GetOrCreateCollection WEB_COLLECTION) w1 = (inr tt, w2) ->
      h (CollectionQuery 3 emb) w2 = (inl e, w3) ->
      run h (chat question) w
      = Outcome (Abrupt e) w3
          [EvCall (EmbeddingsCreate "text-embedding-3-small" question);
           EvCall (GetOrCreateCollection WEB_COLLECTION);
           EvCall (CollectionQuery 3 emb)])
  /\ (h (EmbeddingsCreate "text-embedding-3-small" question) w
      = (inr (emb :: data), w1) ->
      h (GetOrCreateCollection WEB_COLLECTION) w1 = (inr tt, w2) ->
      h (CollectionQuery 3 emb) w2 = (inr (recs :: more), w3) ->
      Forall (fun m => is_string (m_body m) /\ is_string (m_url m)) recs ->
      h (ChatCompletionsCreate "gpt-3.5-turbo"
           [(RoleSystem, system_content);
            (RoleUser,
             user_content question (List.filter nonblank (map m_url recs))
               (List.filter nonblank (map m_body recs)))]) w3
      = (inl e, w4) ->
      result (run h (chat question) w) = Abrupt e
      /\ world (run h (chat question) w) = w4
      /\ Forall (fun ev => forall l, ev <> EvLog l) (trace (run h (chat question) w))).
Proof.
  split; [|split].
  - intros Hemb. unfold chat, generateVectorEmbeddings.
    cbn [bind await run]. by rewrite Hemb.
  - intros Hemb Hcoll Hquery. unfold chat, generateVectorEmbeddings.
    cbn [bind await run]. rewrite Hemb. cbn [bind await run]. rewrite Hcoll.
    cbn [bind await run]. by rewrite Hquery.
  - intros Hemb Hcoll Hquery Hstr Hgen.
    destruct (run_chat h question w w1 w2 w3 emb data recs more Hemb Hcoll Hquery)
      as (o & -> & ->).
    rewrite !js_filter_strings.
    + fold (completion_request question (List.filter nonblank (map m_url recs))
              (List.filter nonblank (map m_body recs))) in Hgen.
      rewrite Hgen. cbn [result world trace emit].
      split; [done|]. split; [done|]. repeat constructor; discriminate.
    + apply Forall_fmap. eapply Forall_impl; [exact Hstr|]. by intros m [? ?].
    + apply Forall_fmap. eapply Forall_impl; [exact Hstr|]. by intros m [? ?].
Qed.

Section ChatMore.

Context {W : Type} (h : handler W).
Variables (question : jsstr) (w w1 w2 w3 w4 : W).
Variables (emb : embedding) (data : list embedding).
Variables (recs : list meta) (more : list (list meta)).
Variables (content : jsstr) (choices : list jsstr).

Hypothesis Hemb :
  h (EmbeddingsCreate "text-embedding-3-small" question) w = (inr (emb :: data), w1).
Hypothesis Hcoll :
  h (GetOrCreateCollection WEB_COLLECTION) w1 = (inr tt, w2).
Hypothesis Hquery :
  h (CollectionQuery 3 emb) w2 = (inr (recs :: more), w3).

(** X20. When all calls are answered and the records have string fields,
    [chat] asks the generative service once and logs its first choice
    with the first url that is not blank, which is the url of the
    first-ranked record only when that one is not blank; with no such url
    it logs [undefined]. *)
Theorem chat_answer :
  Forall (fun m => is_string (m_body m) /\ is_string (m_url m)) recs ->
  let url := List.filter nonblank (map m_url recs) in
  let body := List.filter nonblank (map m_body recs) in
  h (completion_request question url body) w3 = (inr (content :: choices), w4) ->
  run h (chat question) w
  = Outcome (Normal tt) w4
      (retrieval_calls question emb
       ++ [EvCall (completion_request question url body);
           EvLog (LogAnswer content (hd JUndefined url))])
  /\ (forall m rest, recs = m :: rest -> nonblank (m_url m) = true ->
      hd JUndefined url = m_url m)
  /\ (Forall (fun m => nonblank (m_url m) = false) recs ->
      hd JUndefined url = JUndefined).
Proof.
  intros Hstr url body Hgen.
  destruct (run_chat h question w w1 w2 w3 emb data recs more Hemb Hcoll Hquery)
    as (o & -> & ->).
  rewrite !js_filter_strings.
  - fold url body. rewrite Hgen. cbn [result world trace emit].
    split; [done|]. split.
    + intros m rest -> Hm. subst url. cbn [map List.filter]. by rewrite Hm.
    + intros Hall. subst url. clear -Hall.
      induction Hall as [|m l Hm _ IH]; [done|].
      cbn [map List.filter]. by rewrite Hm.
  - apply Forall_fmap. eapply Forall_impl; [exact Hstr|]. by intros m [? ?].
  - apply Forall_fmap. eapply Forall_impl; [exact Hstr|]. by intros m [? ?].
Qed.

(** X21. With nothing retrieved ([recs] empty, as on an empty store) [chat]
    still asks the generative service, with an empty url list and an
    empty context in the user message, and logs the answer with the url
    [undefined]. *)
Theorem chat_nothing_retrieved :
  recs = [] ->
  h (completion_request question [] []) w3 = (inr (content :: choices), w4) ->
  run h (chat question) w
  = Outcome (Normal tt) w4
      (retrieval_calls question emb
       ++ [EvCall (completion_request question [] []);
           EvLog (LogAnswer content JUndefined)])
  /\ user_content question [] []
     = lit "Query: " ++ question ++ newline ++ newline ++ newline
       ++ lit "                 URl: " ++ newline ++ newline ++ newline
       ++ lit "                 Retrieved conext: ".
Proof.
  intros Hnil Hgen.
  destruct (run_chat h question w w1 w2 w3 emb data recs more Hemb Hcoll Hquery)
    as (o & -> & ->).
  rewrite Hnil. cbn [map js_filter]. rewrite Hgen. cbn [result world trace emit hd].
  split; [done|]. unfold user_content. cbn [map join].
  by rewrite !app_nil_r.
Qed.

End ChatMore.

(** ** The further properties at concrete inputs *)

Lemma page_links_hrefs : None ∉ p_hrefs page_links.
Proof.
  intros H. repeat (apply elem_of_cons in H as [H|H]; [discriminate|]).
  by apply elem_of_nil in H.
Defined.

Lemma scrapeWebpage_links_witness :
  (None ∉ p_hrefs page_links)
  /\ exists r,
       run (scripted (inr page_links) []) (scrapeWebpage url_a) tt
       = Outcome (Normal r) tt [EvCall (AxiosGet url_a)]
       /\ NoDup (externalLinks r) /\ NoDup (internalLinks r).
Proof.
  split; [exact page_links_hrefs|].
  destruct (scrapeWebpage_links (scripted (inr page_links) []) url_a tt tt
              page_links eq_refl page_links_hrefs)
    as (r & Hr & _ & _ & _ & _ & He & Hi & _).
  exists r. split; [exact Hr|]. split; [exact He | exact Hi].
Defined.

Lemma scrapeWebpage_missing_href_witness :
  (None ∈ p_hrefs page_no_href)
  /\ run (scripted (inr page_no_href) []) (scrapeWebpage url_a) tt
     = Outcome (Abrupt TypeError) tt [EvCall (AxiosGet url_a)].
Proof.
  assert (None ∈ p_hrefs page_no_href) as Hin.
  { right. left. }
  split; [exact Hin|].
  exact (proj1 (scrapeWebpage_missing_href (scripted (inr page_no_href) [])
                  url_a tt tt page_no_href eq_refl) Hin).
Defined.

Lemma isUrlProcessed_after_witness :
  e_url entry_a = url_a
  /\ result (run (db_with (inr page_hello))
               (addToVectorDB entry_a 0;; isUrlProcessed url_a) (∅, tt))
     = Normal true.
Proof.
  split; [reflexivity|].
  exact (proj2 (isUrlProcessed_after (scripted (inr page_hello) [])
                  RejectDuplicate first_n url_a entry_a 0 ∅ tt) eq_refl).
Defined.

Lemma purge_reaches_longer_urls_witness :
  url_a `prefix_of` url_a_b
  /\ store_longer !! uniqueId url_a_b 3 = Some record_b
  /\ fst (world (run (db_with (inr page_hello)) (deleteEmbeddingsForUrl url_a)
                   (store_longer, tt))) !! uniqueId url_a_b 3 = None
  /\ result (run (db_with (inr page_hello)) (isUrlProcessed url_a) (store_longer, tt))
     = Normal true.
Proof.
  assert (url_a `prefix_of` url_a_b) as Hp by (by exists (lit "/b")).
  assert (store_longer !! uniqueId url_a_b 3 = Some record_b) as Hin
    by (vm_compute; reflexivity).
  split; [exact Hp|]. split; [exact Hin|].
  destruct (purge_reaches_longer_urls (scripted (inr page_hello) [])
              RejectDuplicate first_n url_a url_a_b 3 store_longer tt Hp)
    as [Hgone Hseen].
  split; [exact Hgone|]. apply Hseen. rewrite Hin. by eexists.
Defined.

Lemma addToVectorDB_keeps_records_witness :
  store_ab !! uniqueId url_b 0 = Some record_b
  /\ fst (world (run (db_with (inr page_hello)) (addToVectorDB entry_a 5)
                   (store_ab, tt))) !! uniqueId url_b 0 = Some record_b.
Proof.
  assert (store_ab !! uniqueId url_b 0 = Some record_b) as H
    by (vm_compute; reflexivity).
  split; [exact H|].
  exact (addToVectorDB_keeps_records (scripted (inr page_hello) [])
           RejectDuplicate first_n entry_a 5 store_ab tt _ _ H).
Defined.

Lemma ingest_stores_chunks_witness :
  splitIntoChunks (lit "Hello") 100 = Normal chunks_hello
  /\ result (run (db_with (inr page_hello)) (ingest url_a) (store_ab, tt)) = Normal tt
  /\ last (trace (run (db_with (inr page_hello)) (ingest url_a) (store_ab, tt)))
     = Some (EvLog (LogIngestingSuccessful url_a)).
Proof.
  split; [reflexivity|].
  pose proof (ingest_stores_chunks (scripted (inr page_hello) []) RejectDuplicate
                first_n url_a store_ab tt page_hello tt (lit "Hello") chunks_hello
                (replicate 5 [0]) tt eq_refl (not_elem_of_nil None) eq_refl
                ltac:(discriminate) eq_refl eq_refl) as H.
  cbv zeta in H. destruct H as (Hr & _ & _ & _ & Hl).
  split; [exact Hr | exact Hl].
Defined.

Lemma ingest_keeps_committed_chunks_witness :
  embeddings_of flaky 2%nat chunks_hello = ([[7]; [7]], 0%nat, Some (Rejected OpenAI 429))
  /\ result (run (chroma flaky RejectDuplicate first_n) (ingest url_a) (∅, 2%nat))
     = Normal tt
  /\ fst (world (run (chroma flaky RejectDuplicate first_n) (ingest url_a) (∅, 2%nat)))
       !! uniqueId url_a 1 = Some (chunk_record url_a (lit "e") [7] 1)
  /\ fst (world (run (chroma flaky RejectDuplicate first_n) (ingest url_a) (∅, 2%nat)))
       !! uniqueId url_a 2 = None.
Proof.
  split; [reflexivity|].
  pose proof (ingest_keeps_committed_chunks flaky RejectDuplicate first_n url_a
                ∅ 2%nat page_hello 2%nat (lit "Hello") chunks_hello
                [[7]; [7]] 0%nat (Rejected OpenAI 429)
                eq_refl (not_elem_of_nil None) eq_refl
                ltac:(discriminate) eq_refl eq_refl) as H.
  cbv zeta in H. destruct H as (Hr & _ & Hin & Hout & _).
  split; [exact Hr|]. split.
  - exact (Hin 1%nat [7] (lit "e") eq_refl eq_refl).
  - exact (Hout 2%nat (le_n 2)).
Defined.

Lemma ingest_twice_same_records_witness :
  result (run (db_with (inr page_hello)) (ingest url_a)
            (world (run (db_with (inr page_hello)) (ingest url_a) (store_ab, tt))))
  = Normal tt.
Proof.
  exact (proj1 (ingest_twice_same_records (scripted (inr page_hello) [])
                  RejectDuplicate first_n url_a store_ab tt page_hello page_hello
                  tt tt (lit "Hello") chunks_hello (replicate 5 [0])
                  (replicate 5 [0]) tt tt
                  eq_refl (not_elem_of_nil None) eq_refl ltac:(discriminate)
                  eq_refl eq_refl eq_refl (not_elem_of_nil None) eq_refl eq_refl)).
Defined.

Lemma ingest_stops_when_purge_fails_witness :
  result (run rejecting (deleteEmbeddingsForUrl url_a) tt)
  = Abrupt (Rejected Chroma 503)
  /\ Forall (fun ev => ~ is_fetch ev) (trace (run rejecting (ingest url_a) tt)).
Proof.
  split; [reflexivity|].
  exact (proj2 (ingest_stops_when_purge_fails rejecting url_a tt
                  (Rejected Chroma 503) eq_refl)).
Defined.

Lemma chat_rethrows_witness :
  rejecting (EmbeddingsCreate "text-embedding-3-small" question_1) tt
  = (inl (Rejected Chroma 503), tt)
  /\ run rejecting (chat question_1) tt
     = Outcome (Abrupt (Rejected Chroma 503)) tt
         [EvCall (EmbeddingsCreate "text-embedding-3-small" question_1)].
Proof.
  split; [reflexivity|].
  exact (proj1 (chat_rethrows rejecting question_1 tt tt tt tt tt [] [] [] []
                  (Rejected Chroma 503)) eq_refl).
Defined.

Lemma chat_answer_witness :
  Forall (fun m => is_string (m_body m) /\ is_string (m_url m)) recs_blank_first
  /\ result (run (scripted (inr page_hello) recs_blank_first) (chat question_1) tt)
     = Normal tt.
Proof.
  assert (Forall (fun m => is_string (m_body m) /\ is_string (m_url m))
            recs_blank_first) as Hs.
  { repeat constructor. }
  split; [exact Hs|].
  pose proof (chat_answer (scripted (inr page_hello) recs_blank_first)
                question_1 tt tt tt tt tt [0] [] recs_blank_first [] (lit "ok") []
                eq_refl eq_refl eq_refl Hs eq_refl) as H.
  exact (f_equal result (proj1 H)).
Defined.

Lemma chat_nothing_retrieved_witness :
  run (scripted (inr page_hello) []) (chat question_1) tt
  = Outcome (Normal tt) tt
      (retrieval_calls question_1 [0]
       ++ [EvCall (completion_request question_1 [] []);
           EvLog (LogAnswer (lit "ok") JUndefined)]).
Proof.
  exact (proj1 (chat_nothing_retrieved (scripted (inr page_hello) [])
                  question_1 tt tt tt tt tt [0] [] [] [] (lit "ok") []
                  eq_refl eq_refl eq_refl eq_refl eq_refl)).
Defined.
